(** * kubesh: the settings resolver, the pod lifecycle manager and the
      teardown retrier, embedded from [config/config.go] and
      [nodeshell/nodeshell.go].

    Go values are modelled as follows.  A Go [string] is a [string] (a
    sequence of bytes), a [[]string] is a [list string], a
    [map[string]string] is a [gmap string string], a [time.Duration] is a
    [Z] counting nanoseconds.  A Go [error] result is an [option] (absent
    means [nil]) or the right injection of a sum.  A method that mutates
    its receiver returns the new receiver.  The Kubernetes API server, the
    file system and the Go runtime (tickers, timers, [select]) are outside
    the repository: they are an explicit world that each call threads. *)

From Stdlib Require Import String Ascii List ZArith Lia Bool.
From stdpp Require Import base option gmap strings list.
Import ListNotations.

Local Open Scope string_scope.

(** ** Package [config] *)

Module config.

Definition defaultImage : string := "uhub.service.ucloud.cn/library/alpine:latest".
Definition defaultPodNamespace : string := "kube-system".
Definition defaultPodName : string := "node-shell-{node}".

Definition defaultPauseCommand : list string := ["sleep"; "infinity"].
Definition defaultShellCommand : list string := ["bash"].

Record Config := mkConfig {
  Image : string;
  PauseCommand : list string;
  ShellCommand : list string;
  PodNamespace : string;
  PodName : string
}.

(** The zero value of [Config], what [var cfg Config] declares. *)
Definition zero : Config := mkConfig "" [] [] "" "".

Definition Default : Config :=
  {| Image := defaultImage;
     PauseCommand := defaultPauseCommand;
     ShellCommand := defaultShellCommand;
     PodNamespace := defaultPodNamespace;
     PodName := defaultPodName |}.

(** Field assignments [c.F = v]. *)
Definition setImage (v : string) (c : Config) : Config :=
  mkConfig v (PauseCommand c) (ShellCommand c) (PodNamespace c) (PodName c).
Definition setPauseCommand (v : list string) (c : Config) : Config :=
  mkConfig (Image c) v (ShellCommand c) (PodNamespace c) (PodName c).
Definition setShellCommand (v : list string) (c : Config) : Config :=
  mkConfig (Image c) (PauseCommand c) v (PodNamespace c) (PodName c).
Definition setPodNamespace (v : string) (c : Config) : Config :=
  mkConfig (Image c) (PauseCommand c) (ShellCommand c) v (PodName c).
Definition setPodName (v : string) (c : Config) : Config :=
  mkConfig (Image c) (PauseCommand c) (ShellCommand c) (PodNamespace c) v.

(** [func (c *Config) Validate() error]: the receiver after the call and
    the returned error. *)
Definition Validate (c : Config) : Config * option string :=
  let c := if String.eqb (Image c) "" then setImage defaultImage c else c in
  let c := if Nat.eqb (List.length (PauseCommand c)) 0
           then setPauseCommand defaultPauseCommand c else c in
  let c := if Nat.eqb (List.length (ShellCommand c)) 0
           then setShellCommand defaultShellCommand c else c in
  let c := if String.eqb (PodNamespace c) "" then setPodNamespace defaultPodNamespace c else c in
  let c := if String.eqb (PodName c) "" then setPodName defaultPodName c else c in
  (c, None).

(** What [os.ReadFile] can fail with; [os.IsNotExist] tells the two apart. *)
Inductive FileError :=
| ErrNotExist
| ErrOther (msg : string).

Definition IsNotExist (e : FileError) : bool :=
  match e with ErrNotExist => true | ErrOther _ => false end.

(** The machine [Load] runs on: [os.UserHomeDir], [filepath.Join],
    [os.ReadFile], and [yaml.Unmarshal] into a zero [Config].  None of
    them is code of this repository, so they are taken as given. *)
Record Host := mkHost {
  UserHomeDir : string + string;
  Join : list string -> string;
  ReadFile : string -> string + FileError;
  Unmarshal : string -> Config + string
}.

Inductive LoadError :=
| HomeDirError (cause : string)        (* "get user home dir: %w" *)
| ReadError (cause : FileError)        (* "read config file: %w" *)
| ParseError (cause : string)          (* "parse config file: %w" *)
| ValidateError (cause : string).      (* "validate config: %w" *)

(** The first block of [Load]: the path that is read. *)
Definition resolvePath (h : Host) (configPath : string) : string + LoadError :=
  if String.eqb configPath "" then
    match UserHomeDir h with
    | inr err => inr (HomeDirError err)
    | inl homeDir => inl (Join h [homeDir; ".config"; "kubesh.yaml"])
    end
  else inl configPath.

Definition Load (h : Host) (configPath : string) : Config + LoadError :=
  match resolvePath h configPath with
  | inr err => inr err
  | inl configPath =>
      match ReadFile h configPath with
      | inr err =>
          if IsNotExist err then inl Default else inr (ReadError err)
      | inl data =>
          match Unmarshal h data with
          | inr err => inr (ParseError err)
          | inl cfg =>
              match Validate cfg with
              | (_, Some err) => inr (ValidateError err)
              | (cfg, None) => inl cfg
              end
          end
      end
  end.

End config.

(** ** The functions of Go's [strings] package that the program calls *)

Module gostrings.

(** [strings.CutPrefix s prefix]: what follows [prefix] in [s], when [s]
    starts with it. *)
Fixpoint CutPrefix (s prefix : string) : option string :=
  match prefix, s with
  | EmptyString, _ => Some s
  | String a prefix', String b s' =>
      if Ascii.eqb a b then CutPrefix s' prefix' else None
  | String _ _, EmptyString => None
  end.

(** [strings.Contains s substr]. *)
Fixpoint Contains (s substr : string) : bool :=
  match CutPrefix s substr with
  | Some _ => true
  | None =>
      match s with
      | EmptyString => false
      | String _ s' => Contains s' substr
      end
  end.

(** [strings.Join elems sep]. *)
Fixpoint Join (elems : list string) (sep : string) : string :=
  match elems with
  | [] => ""
  | [e] => e
  | e :: rest => e ++ sep ++ Join rest sep
  end.

(** The scan of [strings.Replace] for a non-empty [old]: the leftmost
    instance of [old] is replaced, and the scan goes on behind it, so
    instances do not overlap and the text of [new] is not scanned again.
    [fuel] bounds the number of steps; the length of [s] is enough. *)
Fixpoint replaceLoop (fuel : nat) (s old new : string) : string :=
  match fuel with
  | O => s
  | S fuel =>
      match CutPrefix s old with
      | Some rest => new ++ replaceLoop fuel rest old new
      | None =>
          match s with
          | EmptyString => EmptyString
          | String c s' => String c (replaceLoop fuel s' old new)
          end
      end
  end.

(** With an empty [old], Go puts [new] in front of every UTF-8 sequence
    and at the end.  This model does so at every byte, which is the same
    on ASCII text; the program never passes an empty [old]. *)
Fixpoint insertAround (s new : string) : string :=
  match s with
  | EmptyString => new
  | String c s' => new ++ String c (insertAround s' new)
  end.

(** [strings.ReplaceAll s old new]. *)
Definition ReplaceAll (s old new : string) : string :=
  match old with
  | EmptyString => insertAround s new
  | String _ _ => replaceLoop (String.length s) s old new
  end.

End gostrings.

(** ** The Kubernetes objects and errors the program touches *)

Module k8s.

Definition PodPhase := string.
Definition PodPending : PodPhase := "Pending".
Definition PodRunning : PodPhase := "Running".

Record SecurityContext := mkSecurityContext {
  Privileged : option bool
}.

Record Container := mkContainer {
  ContainerName : string;
  ContainerImage : string;
  Command : list string;
  Args : list string;
  ContainerSecurityContext : option SecurityContext
}.

Record ObjectMeta := mkObjectMeta {
  Name : string;
  Namespace : string;
  Labels : gmap string string
}.

Record PodSpec := mkPodSpec {
  NodeName : string;
  HostNetwork : bool;
  HostPID : bool;
  HostIPC : bool;
  Containers : list Container
}.

Record PodStatus := mkPodStatus {
  Phase : PodPhase
}.

Record Pod := mkPod {
  Meta : ObjectMeta;
  Spec : PodSpec;
  Status : PodStatus
}.

(** What a container runs: its command followed by its arguments. *)
Definition fullCommand (c : Container) : list string :=
  (Command c ++ Args c)%list.

(** Whether a container runs privileged; an absent field means no. *)
Definition isPrivileged (c : Container) : bool :=
  match ContainerSecurityContext c with
  | Some sc => match Privileged sc with Some b => b | None => false end
  | None => false
  end.

(** An API error, by the reason the program asks about. *)
Inductive StatusError :=
| NotFound
| AlreadyExists
| OtherError (msg : string).

(** [kerrors.IsNotFound]. *)
Definition IsNotFound (err : StatusError) : bool :=
  match err with NotFound => true | _ => false end.

(** What the API server holds. *)
Record Cluster := mkCluster {
  nodes : gset string;
  namespaces : gset string;
  pods : gmap (string * string) Pod          (* by namespace and name *)
}.

Inductive Request :=
| GetNode (name : string)
| GetNamespace (name : string)
| GetPod (ns name : string)
| CreatePod (ns : string) (pod : Pod)
| DeletePod (ns name : string).

Inductive Reply :=
| ReplyOk
| ReplyPod (pod : Pod)
| ReplyErr (err : StatusError).

End k8s.

(** ** The world a session runs in *)

Module world.
Import k8s.

(** One move of everything else that acts on the cluster (the kubelet,
    another invocation of the program, an operator), made just before the
    API server serves the program's next request: a change of the cluster,
    and possibly an error with which the request is answered instead.  A
    request that the client library or the server's validation refuses, for
    an empty or a malformed name, is answered with an error too: such a
    refusal is a fault of the move. *)
Record EnvStep := mkEnvStep {
  interfere : Cluster -> Cluster;
  fault : option StatusError
}.

(** Which case a [select] statement takes. *)
Inductive SelectCase :=
| TickCase            (* <-checkStatusTk.C *)
| TimeoutCase.        (* <-checkStatusTimeout.C *)

(** What the program does to the outside, in order. *)
Inductive Effect :=
| ECall (req : Request) (reply : Reply)
| ENewTicker (d : Z)
| ENewTimer (d : Z)
| ERecv (c : SelectCase)
| ESleep (d : Z)
| EPrint (line : string).

Record World := mkWorld {
  cluster : Cluster;
  script : list EnvStep;       (* the moves of the environment still to come *)
  trace : list Effect          (* the effects so far, oldest first *)
}.

Definition emit (es : list Effect) (w : World) : World :=
  mkWorld (cluster w) (script w) (trace w ++ es).

(** The environment's next move: the cluster the request meets, the fault
    injected if any, and the rest of the script.  An exhausted script
    leaves the cluster alone. *)
Definition envMove (w : World) : Cluster * option StatusError * list EnvStep :=
  match script w with
  | [] => (cluster w, None, [])
  | s :: rest => (interfere s (cluster w), fault s, rest)
  end.

Definition replyOf (r : option StatusError) : Reply :=
  match r with None => ReplyOk | Some err => ReplyErr err end.

Definition replyOfPod (r : Pod + StatusError) : Reply :=
  match r with inl p => ReplyPod p | inr err => ReplyErr err end.

(** [Nodes().Get(ctx, name, ...)]. *)
Definition getNode (name : string) (w : World) : option StatusError * World :=
  let '(cl, flt, rest) := envMove w in
  let r := match flt with
           | Some err => Some err
           | None => if bool_decide (name ∈ nodes cl) then None else Some NotFound
           end in
  (r, mkWorld cl rest (trace w ++ [ECall (GetNode name) (replyOf r)])).

(** [Namespaces().Get(ctx, name, ...)]. *)
Definition getNamespace (name : string) (w : World) : option StatusError * World :=
  let '(cl, flt, rest) := envMove w in
  let r := match flt with
           | Some err => Some err
           | None => if bool_decide (name ∈ namespaces cl) then None else Some NotFound
           end in
  (r, mkWorld cl rest (trace w ++ [ECall (GetNamespace name) (replyOf r)])).

(** [Pods(ns).Get(ctx, name, ...)]. *)
Definition getPod (ns name : string) (w : World) : (Pod + StatusError) * World :=
  let '(cl, flt, rest) := envMove w in
  let r := match flt with
           | Some err => inr err
           | None =>
               match pods cl !! (ns, name) with
               | Some p => inl p
               | None => inr NotFound
               end
           end in
  (r, mkWorld cl rest (trace w ++ [ECall (GetPod ns name) (replyOfPod r)])).

(** [Pods(ns).Create(ctx, pod, ...)]: a name that is taken is refused, a
    new pod is stored, pending. *)
Definition createPod (ns : string) (pod : Pod) (w : World) : (Pod + StatusError) * World :=
  let '(cl, flt, rest) := envMove w in
  let '(r, cl) :=
    match flt with
    | Some err => (inr err, cl)
    | None =>
        match pods cl !! (ns, Name (Meta pod)) with
        | Some _ => (inr AlreadyExists, cl)
        | None =>
            let stored := mkPod (Meta pod) (Spec pod) (mkPodStatus PodPending) in
            (inl stored,
             mkCluster (nodes cl) (namespaces cl) (<[(ns, Name (Meta pod)) := stored]> (pods cl)))
        end
    end in
  (r, mkWorld cl rest (trace w ++ [ECall (CreatePod ns pod) (replyOfPod r)])).

(** [Pods(ns).Delete(ctx, name, ...)]. *)
Definition deletePod (ns name : string) (w : World) : option StatusError * World :=
  let '(cl, flt, rest) := envMove w in
  let '(r, cl) :=
    match flt with
    | Some err => (Some err, cl)
    | None =>
        match pods cl !! (ns, name) with
        | Some _ => (None, mkCluster (nodes cl) (namespaces cl) (delete (ns, name) (pods cl)))
        | None => (Some NotFound, cl)
        end
    end in
  (r, mkWorld cl rest (trace w ++ [ECall (DeletePod ns name) (replyOf r)])).

(** A call that may never come back. *)
Inductive Returns (A : Type) :=
| Returned (a : A)
| Blocked.
Arguments Returned {A} a.
Arguments Blocked {A}.

End world.

(** ** Package [nodeshell] *)

Module nodeshell.
Import k8s world.

Definition Second : Z := 1000000000.
Definition Minute : Z := 60 * Second.

Definition containerName : string := "node-shell".

Definition checkPodStatusInterval : Z := Second.
Definition checkPodStatusTimeout : Z := Minute.

Definition closeMaxRetry : nat := 5.
Definition closeRetryTime : Z := Second * 3.

(** The fields of [NodeShell] that are data; the two client handles are
    the world. *)
Record NodeShell := mkNodeShell {
  node : string;
  podName : string;
  config : config.Config
}.

(** The errors [start] and [Close] make, by the place that makes them. *)
Inductive Error :=
| NodeNotFound (node : string)                          (* "node %s not found in cluster" *)
| GetNodeError (node : string) (cause : StatusError)    (* "get node %s error: %w" *)
| NamespaceNotFound (ns : string)                       (* "namespace %s not found in cluster, ..." *)
| GetNamespaceError (ns : string) (cause : StatusError) (* "get namespace %s error: %w" *)
| GetPodError (cause : StatusError)                     (* "get node-shell pod error: ..." *)
| CreatePodError (cause : StatusError)                  (* "create node-shell pod error: %w" *)
| StartupTimeout                                        (* "timeout to wait node-shell pod to running" *)
| DeletePodError (cause : StatusError).                 (* "delete node-shell pod error: %v" *)

Definition buildPod (n : NodeShell) : Pod :=
  let args := ["-t"; "1"; "-m"; "-u"; "-i"; "-n"] in
  let args := (args ++ config.PauseCommand (config n))%list in
  {| Meta := {| Name := podName n;
                Namespace := config.PodNamespace (config n);
                Labels := {[ "app" := "node-shell"; "owner" := "kubesh" ]} |};
     Spec := {| NodeName := node n;
                HostNetwork := true;
                HostPID := true;
                HostIPC := true;
                Containers :=
                  [ {| ContainerName := containerName;
                       ContainerImage := config.Image (config n);
                       Command := ["nsenter"];
                       Args := args;
                       ContainerSecurityContext := Some {| Privileged := Some true |} |} ] |};
     Status := {| Phase := "" |} |}.

(** The [for { select { ... } }] loop of [start].  [sched] lists the case
    each [select] takes, as the Go runtime decides it; when it is used up
    the goroutine stays blocked in [select]. *)
Fixpoint waitRunning (n : NodeShell) (sched : list SelectCase) (w : World)
  : Returns (option Error) * World :=
  match sched with
  | [] => (Blocked, w)
  | TickCase :: sched =>
      match getPod (config.PodNamespace (config n)) (podName n) (emit [ERecv TickCase] w) with
      | (inr err, w) =>
          if negb (IsNotFound err) then (Returned (Some (GetPodError err)), w)
          else waitRunning n sched w
      | (inl pod, w) =>
          if String.eqb (Phase (Status pod)) PodRunning then (Returned None, w)
          else waitRunning n sched w
      end
  | TimeoutCase :: _ =>
      (Returned (Some StartupTimeout), emit [ERecv TimeoutCase] w)
  end.

(** The tail of [start], from the comment "Wait for the pod to start up". *)
Definition waitStartup (n : NodeShell) (sched : list SelectCase) (w : World)
  : Returns (option Error) * World :=
  waitRunning n sched
    (emit [ENewTicker checkPodStatusInterval; ENewTimer checkPodStatusTimeout] w).

Definition start (n : NodeShell) (sched : list SelectCase) (w : World)
  : Returns (option Error) * World :=
  match getNode (node n) w with
  | (Some err, w) =>
      if IsNotFound err then (Returned (Some (NodeNotFound (node n))), w)
      else (Returned (Some (GetNodeError (node n) err)), w)
  | (None, w) =>
  match getNamespace (config.PodNamespace (config n)) w with
  | (Some err, w) =>
      if IsNotFound err
      then (Returned (Some (NamespaceNotFound (config.PodNamespace (config n)))), w)
      else (Returned (Some (GetNamespaceError (config.PodNamespace (config n)) err)), w)
  | (None, w) =>
  match getPod (config.PodNamespace (config n)) (podName n) w with
  | (inl pod, w) =>
      if String.eqb (Phase (Status pod)) PodRunning then (Returned None, w)
      else waitStartup n sched w
  | (inr err, w) =>
      if negb (IsNotFound err) then (Returned (Some (GetPodError err)), w)
      else
        match createPod (config.PodNamespace (config n)) (buildPod n) w with
        | (inr err, w) => (Returned (Some (CreatePodError err)), w)
        | (inl _, w) => waitStartup n sched w
        end
  end end end.

(** The placeholder of the pod name template. *)
Definition placeholder : string := "{node}".

(** The struct literal of [New]. *)
Definition newShell (node : string) (config : config.Config) : NodeShell :=
  {| node := node;
     podName := gostrings.ReplaceAll (config.PodName config) placeholder node;
     config := config |}.

Definition New (node : string) (config : config.Config)
           (sched : list SelectCase) (w : World)
  : Returns (NodeShell + Error) * World :=
  let ns := newShell node config in
  match start ns sched w with
  | (Returned (Some err), w) => (Returned (inr err), w)
  | (Returned None, w) => (Returned (inl ns), w)
  | (Blocked, w) => (Blocked, w)
  end.

Definition Close (n : NodeShell) (w : World) : option Error * World :=
  match deletePod (config.PodNamespace (config n)) (podName n) w with
  | (Some err, w) =>
      if IsNotFound err then (None, w)
      else (Some (DeletePodError err), w)
  | (None, w) => (None, w)
  end.

(** The text of an error, as [%v] prints it.  The wording of an API
    error is the server's; nothing below depends on it. *)
Definition causeString (err : StatusError) : string :=
  match err with
  | NotFound => "not found"
  | AlreadyExists => "already exists"
  | OtherError msg => msg
  end.

Definition errorString (err : Error) : string :=
  match err with
  | NodeNotFound node => "node " ++ node ++ " not found in cluster"
  | GetNodeError node cause => "get node " ++ node ++ " error: " ++ causeString cause
  | NamespaceNotFound ns =>
      "namespace " ++ ns ++ " not found in cluster, please create it first"
  | GetNamespaceError ns cause => "get namespace " ++ ns ++ " error: " ++ causeString cause
  | GetPodError cause => "get node-shell pod error: " ++ causeString cause
  | CreatePodError cause => "create node-shell pod error: " ++ causeString cause
  | StartupTimeout => "timeout to wait node-shell pod to running"
  | DeletePodError cause => "delete node-shell pod error: " ++ causeString cause
  end.

Definition warning (err : Error) : string :=
  "WARNING: Failed to close node shell: " ++ errorString err.

(** The loop of [RetryClose], with [togo] iterations to go
    ([closeMaxRetry - i]). *)
Fixpoint retryLoop (n : NodeShell) (togo : nat) (w : World) : World :=
  match togo with
  | O => w
  | S togo =>
      match Close n w with
      | (Some err, w) =>
          retryLoop n togo (emit [ESleep closeRetryTime; EPrint (warning err)] w)
      | (None, w) => w
      end
  end.

Definition RetryClose (n : NodeShell) (w : World) : World :=
  retryLoop n closeMaxRetry w.

End nodeshell.

(** ** What is read off a run *)

Module observe.
Local Open Scope list_scope.
Import k8s world nodeshell.

Definition isDelete (e : Effect) : bool :=
  match e with ECall (DeletePod _ _) _ => true | _ => false end.

Definition isSleep (e : Effect) : bool :=
  match e with ESleep _ => true | _ => false end.

Definition isPrint (e : Effect) : bool :=
  match e with EPrint _ => true | _ => false end.

(** The calls to the API server. *)
Definition isCall (e : Effect) : bool :=
  match e with ECall _ _ => true | _ => false end.

(** A move of the environment that changes nothing and injects nothing. *)
Definition calm (s : EnvStep) : Prop :=
  (forall cl, interfere s cl = cl) /\ fault s = None.

(** One iteration of the loop of [start] that takes the ticker case: the
    receive, and the poll with its reply. *)
Definition pollRound (n : NodeShell) (r : Reply) : list Effect :=
  [ERecv TickCase; ECall (GetPod (config.PodNamespace (config n)) (podName n)) r].

(** The replies after which the loop goes round again: "not found", and a
    pod in another phase than "Running". *)
Definition retried (r : Reply) : bool :=
  match r with
  | ReplyErr err => IsNotFound err
  | ReplyPod pod => negb (String.eqb (Phase (Status pod)) PodRunning)
  | ReplyOk => false
  end.

(** How a run of the loop of [start] ends, after [k] rounds that went
    round again: the outcome, the schedule it was given, and the effects
    of the last iteration. *)
Definition pollEnd (n : NodeShell) (sched : list SelectCase) (k : nat)
           (out : Returns (option Error)) (final : list Effect) : Prop :=
  (out = Blocked /\ sched = repeat TickCase k /\ final = [])
  \/ (exists rest,
        out = Returned (Some StartupTimeout) /\
        sched = repeat TickCase k ++ TimeoutCase :: rest /\
        final = [ERecv TimeoutCase])
  \/ (exists rest pod,
        out = Returned None /\
        Phase (Status pod) = PodRunning /\
        sched = repeat TickCase k ++ TickCase :: rest /\
        final = pollRound n (ReplyPod pod))
  \/ (exists rest cause,
        out = Returned (Some (GetPodError cause)) /\
        IsNotFound cause = false /\
        sched = repeat TickCase k ++ TickCase :: rest /\
        final = pollRound n (ReplyErr cause)).

(** The pods a run asked the API server to create, with their namespace. *)
Definition createdPods (t : list Effect) : list (string * Pod) :=
  flat_map (fun e => match e with
                     | ECall (CreatePod ns pod) _ => [(ns, pod)]
                     | _ => []
                     end) t.

(** One iteration of the loop of [RetryClose] whose delete call fails
    with [err]: the call, the delay, the warning. *)
Definition failedAttempt (n : NodeShell) (err : StatusError) : list Effect :=
  [ECall (DeletePod (config.PodNamespace (config n)) (podName n)) (ReplyErr err);
   ESleep closeRetryTime;
   EPrint (warning (DeletePodError err))].

End observe.

(** ** Concrete hosts, clusters and environments on which the model runs *)

Module examples.
Import k8s world nodeshell.
Local Open Scope list_scope.

Definition joinSlash (parts : list string) : string := gostrings.Join parts "/".

(** A parser that knows the empty document only, which [yaml.Unmarshal]
    accepts and which leaves the record untouched. *)
Definition emptyDocOnly (data : string) : config.Config + string :=
  if String.eqb data "" then inl config.zero else inr "unsupported document".

Definition hostNoFile : config.Host :=
  config.mkHost (inl "/home/op") joinSlash (fun _ => inr config.ErrNotExist) emptyDocOnly.

Definition hostEmptyFile : config.Host :=
  config.mkHost (inl "/home/op") joinSlash (fun _ => inl "") emptyDocOnly.

(** A settings file that sets a pod name without the placeholder. *)
Definition fixedName : config.Config := config.mkConfig "" [] [] "" "shell".

Definition hostFixedName : config.Host :=
  config.mkHost (inl "/home/op") joinSlash (fun _ => inl "podName: shell")
    (fun _ => inl fixedName).

(** Moves of the environment. *)
Definition quiet : EnvStep := mkEnvStep (fun cl => cl) None.

Definition failing (err : StatusError) : EnvStep := mkEnvStep (fun cl => cl) (Some err).

(** The kubelet brings a pod up. *)
Definition bringUp (ns name : string) (cl : Cluster) : Cluster :=
  mkCluster (nodes cl) (namespaces cl)
    (alter (fun p => mkPod (Meta p) (Spec p) (mkPodStatus PodRunning)) (ns, name) (pods cl)).

(** Another invocation of the program creates its pod. *)
Definition put (ns : string) (pod : Pod) (cl : Cluster) : Cluster :=
  mkCluster (nodes cl) (namespaces cl) (<[(ns, Name (Meta pod)) := pod]> (pods cl)).

Definition shellA : NodeShell := newShell "node-a" config.Default.
Definition shellB : NodeShell := newShell "node-b" config.Default.

(** A cluster with one node and no pod. *)
Definition bare : Cluster := mkCluster {[ "node-a" ]} {[ "kube-system" ]} ∅.

(** The shell pod of [node-a] is created by someone else between the
    program's lookup and its create call. *)
Definition raceWorld : World :=
  mkWorld bare [quiet; quiet; quiet; mkEnvStep (put "kube-system" (buildPod shellA)) None] [].

(** The shell pod of [node-b] is still there, running, and the node is
    gone from the cluster. *)
Definition runningB : Pod :=
  mkPod (Meta (buildPod shellB)) (Spec (buildPod shellB)) (mkPodStatus PodRunning).

Definition staleWorld : World :=
  mkWorld (put "kube-system" runningB bare) [] [].

(** Nothing interferes but the kubelet, which brings the pod up before
    the second poll. *)
Definition freshWorld : World :=
  mkWorld bare
    [quiet; quiet; quiet; quiet; quiet;
     mkEnvStep (bringUp "kube-system" "node-shell-node-a") None] [].

Definition runningA : Pod :=
  mkPod (Meta (buildPod shellA)) (Spec (buildPod shellA)) (mkPodStatus PodRunning).

Definition servedWorld : World :=
  mkWorld (put "kube-system" runningA bare) [] [].

(** The API server fails four requests, then five. *)
Definition unavailable : StatusError := OtherError "the server is currently unable to handle the request".

Definition flakyWorld : World :=
  mkWorld (put "kube-system" runningA bare) (repeat (failing unavailable) 4 ++ [quiet]) [].

Definition downWorld : World :=
  mkWorld (put "kube-system" runningA bare) (repeat (failing unavailable) 5 ++ [quiet]) [].

(** The pod is gone already. *)
Definition goneWorld : World := mkWorld bare [] [].

End examples.

(** ** The interactive session: [Run] *)

Module session.
Import k8s world nodeshell.

(** [rest.Config]: the one field the program sets, and all the rest of it. *)
Record RestConfig := mkRestConfig {
  Insecure : bool;
  Loaded : string
}.

(** [v1.PodExecOptions]. *)
Record PodExecOptions := mkPodExecOptions {
  ExecContainer : string;
  ExecCommand : list string;
  Stdin : bool;
  Stdout : bool;
  Stderr : bool;
  TTY : bool
}.

(** The request [Run] builds:
    [Post().Resource("pods").Name(..).Namespace(..).SubResource("exec")]
    with the versioned parameters. *)
Record ExecRequest := mkExecRequest {
  Resource : string;
  ReqName : string;
  ReqNamespace : string;
  SubResource : string;
  Params : PodExecOptions
}.

(** [remotecommand.StreamOptions]: which streams are given (a nil stream
    is [false]), and whether a size queue is. *)
Record StreamOptions := mkStreamOptions {
  StreamStdin : bool;
  StreamStdout : bool;
  StreamStderr : bool;
  StreamTty : bool;
  StreamSizeQueue : bool
}.

(** The local terminal and the exec transport, which are library code:
    whether the output is a terminal, the error of making an executor, and
    how the stream ends, if it does. *)
Record Terminal := mkTerminal {
  IsTerminalOut : bool;
  NewSPDYExecutor : RestConfig -> string -> ExecRequest -> option string;
  StreamWithContext : ExecRequest -> StreamOptions -> Returns (option string)
}.

Inductive RunError :=
| NotATerminal                          (* "unable to setup tty, input is not a terminal" *)
| CreateExecutorError (cause : string)  (* "create executor error: %w" *)
| ExecError (cause : string).           (* "exec shell command error: %w" *)

(** What [Run] does to the terminal and the transport, in order. *)
Inductive TermEffect :=
| EMonitorSize
| ENewExecutor (cfg : RestConfig) (method : string) (req : ExecRequest)
| EStream (req : ExecRequest) (opts : StreamOptions).

Definition execRequest (n : NodeShell) : ExecRequest :=
  {| Resource := "pods";
     ReqName := podName n;
     ReqNamespace := config.PodNamespace (config n);
     SubResource := "exec";
     Params := {| ExecContainer := containerName;
                  ExecCommand := config.ShellCommand (config n);
                  Stdin := true;
                  Stdout := true;
                  Stderr := false;
                  TTY := true |} |}.

Definition streamOptions : StreamOptions :=
  {| StreamStdin := true;
     StreamStdout := true;
     StreamStderr := false;
     StreamTty := true;
     StreamSizeQueue := true |}.

(** [func (n *NodeShell) Run() error], with the [kubeConfig] field of the
    receiver as an argument.  [t.Safe] runs the stream and hands its error
    on. *)
Definition Run (n : NodeShell) (kubeConfig : RestConfig) (t : Terminal)
  : Returns (option RunError) * list TermEffect :=
  if negb (IsTerminalOut t) then (Returned (Some NotATerminal), [EMonitorSize])
  else
    let req := execRequest n in
    match NewSPDYExecutor t kubeConfig "POST" req with
    | Some err =>
        (Returned (Some (CreateExecutorError err)),
         [EMonitorSize; ENewExecutor kubeConfig "POST" req])
    | None =>
        let effects := [EMonitorSize; ENewExecutor kubeConfig "POST" req;
                        EStream req streamOptions] in
        match StreamWithContext t req streamOptions with
        | Blocked => (Blocked, effects)
        | Returned (Some err) => (Returned (Some (ExecError err)), effects)
        | Returned None => (Returned None, effects)
        end
    end.

End session.

(** ** The command: package [main] *)

Module cli.
Import k8s world nodeshell session.

Record commandOptions := mkOptions {
  nodeName : string;
  keepPod : bool;
  killPod : bool;
  configPath : string;
  kubeConfigPath : string;
  InsecureFlag : bool
}.

Definition setNodeName (v : string) (o : commandOptions) : commandOptions :=
  mkOptions v (keepPod o) (killPod o) (configPath o) (kubeConfigPath o) (InsecureFlag o).

(** What the command runs on besides the cluster of [world]: the host of
    [config.Load], the loading of the kubeconfig for an explicit path
    ([ClientConfig]), [kubernetes.NewForConfig], the names that
    [Nodes().List] returns, the prompt ([promptui.Select.Run], by the items
    offered), and the terminal.  They are library code, taken as given. *)
Record Machine := mkMachine {
  host : config.Host;
  ClientConfig : string -> RestConfig + string;
  NewForConfig : RestConfig -> option string;
  ListNodes : list string + StatusError;
  Prompt : list string -> string + string;
  terminal : Terminal
}.

(** The errors [run] returns, by the place that makes them; those of the
    packages are handed on as they are. *)
Inductive Failure :=
| ReadKubeConfigError (cause : string)      (* "read kube config error: %w" *)
| CreateKubeClientError (cause : string)    (* "create kube client error: %w" *)
| ListNodesError (cause : StatusError)      (* "list nodes error: %w" *)
| NoNode                                    (* "no node in cluster" *)
| PromptError (cause : string)              (* "prompt error: %w" *)
| LoadFailed (err : config.LoadError)
| ShellFailed (err : nodeshell.Error)
| SessionFailed (err : RunError).

(** [initKubeClient]: the [kubeConfig] it stores. *)
Definition initKubeClient (o : commandOptions) (m : Machine) : RestConfig + Failure :=
  match ClientConfig m (kubeConfigPath o) with
  | inr err => inr (ReadKubeConfigError err)
  | inl cfg =>
      let cfg := if InsecureFlag o then mkRestConfig true (Loaded cfg) else cfg in
      match NewForConfig m cfg with
      | Some err => inr (CreateKubeClientError err)
      | None => inl cfg
      end
  end.

(** [ensureNode]: the options it leaves. *)
Definition ensureNode (o : commandOptions) (m : Machine) : commandOptions + Failure :=
  if negb (String.eqb (nodeName o) "") then inl o
  else
    match ListNodes m with
    | inr err => inr (ListNodesError err)
    | inl nodes =>
        if Nat.eqb (List.length nodes) 0 then inr NoNode
        else
          match Prompt m nodes with
          | inr err => inr (PromptError err)
          | inl result => inl (setNodeName result o)
          end
    end.

(** [func (o *commandOptions) run() error]: the error, the world, and what
    was done to the terminal.  The deferred [RetryClose] runs when [Run]
    has returned. *)
Definition run (o : commandOptions) (m : Machine) (sched : list SelectCase) (w : World)
  : Returns (option Failure) * World * list TermEffect :=
  match initKubeClient o m with
  | inr err => (Returned (Some err), w, [])
  | inl kubeConfig =>
  match ensureNode o m with
  | inr err => (Returned (Some err), w, [])
  | inl o =>
  match config.Load (host m) (configPath o) with
  | inr err => (Returned (Some (LoadFailed err)), w, [])
  | inl config =>
  match New (nodeName o) config sched w with
  | (Blocked, w) => (Blocked, w, [])
  | (Returned (inr err), w) => (Returned (Some (ShellFailed err)), w, [])
  | (Returned (inl nodeShell), w) =>
      if killPod o then
        match Close nodeShell w with
        | (Some err, w) => (Returned (Some (ShellFailed err)), w, [])
        | (None, w) => (Returned None, w, [])
        end
      else
        match Run nodeShell kubeConfig (terminal m) with
        | (Blocked, effects) => (Blocked, w, effects)
        | (Returned r, effects) =>
            (Returned (option_map SessionFailed r),
             if negb (keepPod o) then RetryClose nodeShell w else w,
             effects)
        end
  end end end end.

End cli.

(** ** More that is read off a run *)

Module marks.
Import k8s world nodeshell observe.

(** The effects of a teardown: a delete call, a delay, a warning. *)
Definition isTeardown (e : Effect) : bool :=
  isDelete e || isSleep e || isPrint e.

(** A pod as the API server stores it when it is created. *)
Definition pending (pod : Pod) : Pod :=
  mkPod (Meta pod) (Spec pod) (mkPodStatus PodPending).

(** What [Close] returns, by the reply to its delete call. *)
Definition closeResult (r : Reply) : option Error :=
  match r with
  | ReplyErr err => if IsNotFound err then None else Some (DeletePodError err)
  | _ => None
  end.

End marks.

(** ** The polls of the loop of [start], one by one *)

Module polling.
Import k8s world nodeshell.

(** The world the loop has reached from [w] after [i] iterations that took
    the ticker case: each receives the tick and polls the pod. *)
Fixpoint pollWorld (n : NodeShell) (w : World) (i : nat) : World :=
  match i with
  | O => w
  | S i =>
      snd (getPod (config.PodNamespace (config n)) (podName n)
             (emit [ERecv TickCase] (pollWorld n w i)))
  end.

(** The answer to the poll of iteration [i], counted from 0. *)
Definition pollReply (n : NodeShell) (w : World) (i : nat) : Pod + StatusError :=
  fst (getPod (config.PodNamespace (config n)) (podName n)
         (emit [ERecv TickCase] (pollWorld n w i))).

End polling.

(** ** Tickers, timers and [select] in time *)

Module gotime.
Import world.

(** The time on the goroutine's clock, in nanoseconds since the ticker and
    the timer were made, and the number of ticks that were sent up to the
    last receive from the ticker.  The ticker sends a tick at every multiple
    of its interval; its channel holds one tick, and a tick that finds the
    channel full is dropped.  The ticker and the timer are taken to be made
    at the same instant. *)
Record Clock := mkClock {
  now : Z;
  seen : Z
}.

Definition start0 : Clock := mkClock 0 0.

(** A tick is in the channel: one was sent after the last receive. *)
Definition tickReady (interval : Z) (c : Clock) : bool :=
  (seen c <? now c / interval)%Z.

(** The timer has fired. *)
Definition timerReady (timeout : Z) (c : Clock) : bool :=
  (timeout <=? now c)%Z.

(** A [select] with no case ready sleeps until the next tick or the timer,
    whichever comes first. *)
Definition wake (interval timeout : Z) (c : Clock) : Clock :=
  if tickReady interval c || timerReady timeout c then c
  else mkClock (Z.min ((now c / interval + 1) * interval) timeout) (seen c).

(** Whether the runtime can take the cases of [sched] in this order, a case
    being taken only when it is ready and either one when both are, the
    poll of each tick taking the time [lat] gives for it; and if so, the
    times at which the polls are issued.  The loop ends with the timer
    case. *)
Fixpoint issued (interval timeout : Z) (c : Clock) (lat : list Z) (sched : list SelectCase)
         {struct sched} : option (list Z) :=
  match sched with
  | [] => Some []
  | TimeoutCase :: _ =>
      if timerReady timeout (wake interval timeout c) then Some [] else None
  | TickCase :: sched =>
      let c := wake interval timeout c in
      if tickReady interval c then
        match lat with
        | [] => None
        | l :: lat =>
            option_map (cons (now c))
              (issued interval timeout (mkClock (now c + l) (now c / interval)) lat sched)
        end
      else None
  end.

(** The clock when no tick waits in the channel, up to the minute: the
    state of a loop whose polls take less than the second between two
    ticks. *)
Definition inStep (c : Clock) : Prop :=
  (0 <= now c /\ seen c = now c / 1000000000 /\ seen c <= 60)%Z.

End gotime.

(** ** More hosts, clusters and environments *)

Module scenarios.
Import k8s world nodeshell session cli.
Local Open Scope list_scope.

(** A host without a home directory, with the settings file of
    [examples.hostFixedName]. *)
Definition hostNoHome : config.Host :=
  config.mkHost (inr "$HOME is not defined") (fun _ => "")
    (fun path => if String.eqb path "/etc/kubesh.yaml" then inl "podName: shell"
                 else inr (config.ErrOther "permission denied"))
    (fun _ => inl examples.fixedName).

(** The shell pod of [node-a] is there and has not come up. *)
Definition pendingWorld : World :=
  mkWorld (examples.put "kube-system" (marks.pending (buildPod examples.shellA)) examples.bare)
    [] [].

(** A terminal on which a session runs and ends well. *)
Definition goodTerminal : Terminal :=
  mkTerminal true (fun _ _ _ => None) (fun _ _ => Returned None).

(** A machine with a kubeconfig, the settings file missing, one node
    listed, a prompt that takes the first item, and a good terminal. *)
Definition desk : Machine :=
  mkMachine examples.hostNoFile
    (fun path => inl (mkRestConfig false path))
    (fun _ => None)
    (inl ["node-a"])
    (fun items => match items with item :: _ => inl item | [] => inr "^C" end)
    goodTerminal.

(** The same machine with the output piped. *)
Definition pipe : Machine :=
  mkMachine (host desk) (ClientConfig desk) (NewForConfig desk) (ListNodes desk) (Prompt desk)
    (mkTerminal false (fun _ _ _ => None) (fun _ _ => Returned None)).

Definition sessionA : commandOptions := mkOptions "node-a" false false "" "" false.
Definition sessionB : commandOptions := mkOptions "node-b" false false "" "" false.
Definition keepA : commandOptions := mkOptions "node-a" true false "" "" false.
Definition killA : commandOptions := mkOptions "node-a" false true "" "" false.

(** The poll of second 59 takes a second and a half; all others take no
    time.  Sixty ticks are taken, then the timer. *)
Definition slowLatencies : list Z := repeat 0%Z 58 ++ [1500000000%Z; 0%Z].
Definition slowSchedule : list SelectCase := repeat TickCase 60 ++ [TimeoutCase].

End scenarios.

(** * Facts about the string functions *)

Section StringFacts.
Import gostrings.

Lemma append_nil (s : string) : "" ++ s = s.
Proof. reflexivity. Qed.

Lemma append_cons (a : ascii) (s t : string) : String a s ++ t = String a (s ++ t).
Proof. reflexivity. Qed.

Lemma append_assoc (a b c : string) : (a ++ b) ++ c = a ++ (b ++ c).
Proof.
  induction a as [|x a IH]; [reflexivity|].
  rewrite !append_cons. now rewrite IH.
Qed.

Lemma length_append (a b : string) :
  String.length (a ++ b) = String.length a + String.length b.
Proof.
  induction a as [|x a IH]; [reflexivity|].
  rewrite append_cons. simpl. now rewrite IH.
Qed.

Lemma CutPrefix_Some (p s r : string) : CutPrefix s p = Some r -> s = p ++ r.
Proof.
  revert s. induction p as [|a p IH]; intros s H.
  - destruct s; simpl in H; injection H as <-; reflexivity.
  - destruct s as [|b s]; simpl in H; [discriminate|].
    destruct (Ascii.eqb a b) eqn:E; [|discriminate].
    apply Ascii.eqb_eq in E. subst b. rewrite append_cons. f_equal. now apply IH.
Qed.

Lemma CutPrefix_app (p r : string) : CutPrefix (p ++ r) p = Some r.
Proof.
  induction p as [|a p IH].
  - rewrite append_nil. now destruct r.
  - rewrite append_cons. simpl. now rewrite Ascii.eqb_refl.
Qed.

Lemma CutPrefix_extend (s p r t : string) :
  CutPrefix s p = Some r -> CutPrefix (s ++ t) p = Some (r ++ t).
Proof.
  intros H. apply CutPrefix_Some in H. subst s.
  rewrite append_assoc. apply CutPrefix_app.
Qed.

Lemma Contains_eq (s p : string) :
  Contains s p =
  match CutPrefix s p with
  | Some _ => true
  | None => match s with EmptyString => false | String _ s' => Contains s' p end
  end.
Proof. destruct s; reflexivity. Qed.

Lemma Contains_false_head (s p : string) :
  Contains s p = false -> CutPrefix s p = None.
Proof. rewrite Contains_eq. destruct (CutPrefix s p); [discriminate|reflexivity]. Qed.

Lemma Contains_false_tail (c : ascii) (s p : string) :
  Contains (String c s) p = false -> Contains s p = false.
Proof. rewrite Contains_eq. destruct (CutPrefix _ p); [discriminate|tauto]. Qed.

(** The placeholder does not overlap itself: in front of an instance, a
    text without an instance does not start one. *)
Lemma placeholder_no_early_hit (pre rest : string) :
  pre <> "" ->
  Contains pre nodeshell.placeholder = false ->
  CutPrefix (pre ++ nodeshell.placeholder ++ rest) nodeshell.placeholder = None.
Proof.
  intros Hne Hno. apply Contains_false_head in Hno.
  destruct (CutPrefix (pre ++ _ ++ rest) _) as [r|] eqn:E; [exfalso|reflexivity].
  apply CutPrefix_Some in E. unfold nodeshell.placeholder in *.
  destruct pre as [|c1 pre]; [congruence|].
  do 5 (destruct pre as [|? pre]; [rewrite ?append_cons, ?append_nil in E; congruence|]).
  rewrite !append_cons in E.
  injection E as -> -> -> -> -> -> E.
  destruct pre; simpl in Hno; discriminate.
Qed.

Lemma replaceLoop_S (fuel : nat) (s old new : string) :
  replaceLoop (S fuel) s old new =
  match CutPrefix s old with
  | Some rest => new ++ replaceLoop fuel rest old new
  | None =>
      match s with
      | EmptyString => EmptyString
      | String c s' => String c (replaceLoop fuel s' old new)
      end
  end.
Proof. reflexivity. Qed.

(** A text without an instance is copied. *)
Lemma replaceLoop_nohit (s old new : string) (fuel : nat) :
  Contains s old = false -> replaceLoop fuel s old new = s.
Proof.
  revert fuel. induction s as [|c s IH]; intros fuel Hno.
  - destruct fuel; [reflexivity|].
    rewrite replaceLoop_S. now rewrite (Contains_false_head _ _ Hno).
  - destruct fuel; [reflexivity|].
    rewrite replaceLoop_S, (Contains_false_head _ _ Hno).
    f_equal. apply IH. eapply Contains_false_tail; eassumption.
Qed.

(** The text up to the first instance is copied, the instance becomes
    [new], and the scan goes on behind it. *)
Lemma replaceLoop_hit (pre tail new : string) (fuel : nat) :
  Contains pre nodeshell.placeholder = false ->
  String.length (pre ++ nodeshell.placeholder ++ tail) <= fuel ->
  replaceLoop fuel (pre ++ nodeshell.placeholder ++ tail) nodeshell.placeholder new =
  pre ++ new ++ replaceLoop (fuel - String.length pre - 1) tail nodeshell.placeholder new.
Proof.
  revert fuel. induction pre as [|c pre IH]; intros fuel Hno Hlen.
  - rewrite length_append in Hlen. rewrite !append_nil.
    destruct fuel as [|fuel]; [simpl in Hlen; lia|].
    rewrite replaceLoop_S, CutPrefix_app. simpl String.length.
    now replace (S fuel - 0 - 1) with fuel by lia.
  - destruct fuel as [|fuel]; [rewrite append_cons in Hlen; simpl in Hlen; lia|].
    rewrite replaceLoop_S, placeholder_no_early_hit by (congruence || assumption).
    rewrite !append_cons. f_equal.
    rewrite IH.
    + simpl String.length. now replace (S fuel - S (String.length pre) - 1)
        with (fuel - String.length pre - 1) by lia.
    + eapply Contains_false_tail; eassumption.
    + rewrite append_cons in Hlen. simpl in Hlen. lia.
Qed.

Lemma Join_cons (e e' : string) (rest : list string) (sep : string) :
  Join (e :: e' :: rest) sep = e ++ sep ++ Join (e' :: rest) sep.
Proof. reflexivity. Qed.

(** Replacing in a text cut at the instances of the placeholder joins
    the pieces with [new]. *)
Lemma ReplaceAll_Join (parts : list string) (new : string) :
  Forall (fun p => Contains p nodeshell.placeholder = false) parts ->
  ReplaceAll (Join parts nodeshell.placeholder) nodeshell.placeholder new = Join parts new.
Proof.
  intros Hparts.
  change (replaceLoop (String.length (Join parts nodeshell.placeholder))
            (Join parts nodeshell.placeholder) nodeshell.placeholder new = Join parts new).
  generalize (Nat.le_refl (String.length (Join parts nodeshell.placeholder))).
  generalize (String.length (Join parts nodeshell.placeholder)) at 2 3 as fuel.
  induction Hparts as [|e rest He Hrest IH]; intros fuel Hlen.
  - now destruct fuel.
  - destruct rest as [|e' rest].
    + now apply replaceLoop_nohit.
    + rewrite Join_cons in Hlen |- *. rewrite replaceLoop_hit by assumption.
      rewrite IH; [now rewrite Join_cons|].
      rewrite !length_append in Hlen.
      change (String.length nodeshell.placeholder) with 6 in Hlen. lia.
Qed.

(** The first instance of a non-empty [p] in a text that has one. *)
Lemma Contains_split (s p : string) :
  p <> "" -> Contains s p = true ->
  exists pre rest, s = pre ++ p ++ rest /\ Contains pre p = false.
Proof.
  intros Hp. induction s as [|c s IH]; rewrite Contains_eq;
    destruct (CutPrefix _ p) as [r|] eqn:E; intros H; try discriminate.
  - exists "", r. rewrite append_nil. split; [now apply CutPrefix_Some|]. now destruct p.
  - exists "", r. rewrite append_nil. split; [now apply CutPrefix_Some|]. now destruct p.
  - destruct (IH H) as (pre & rest & -> & Hpre).
    exists (String c pre), rest. split; [reflexivity|].
    rewrite Contains_eq. destruct (CutPrefix (String c pre) p) eqn:E'; [|assumption].
    apply (CutPrefix_extend _ _ _ (p ++ rest)) in E'.
    rewrite append_cons in E'. congruence.
Qed.

(** Every text is cut at the instances of the placeholder into pieces
    that have none. *)
Lemma Join_exists (s : string) :
  exists parts,
    s = Join parts nodeshell.placeholder /\
    Forall (fun p => Contains p nodeshell.placeholder = false) parts.
Proof.
  enough (H : forall n s, String.length s <= n ->
            exists parts, parts <> [] /\ s = Join parts nodeshell.placeholder /\
              Forall (fun p => Contains p nodeshell.placeholder = false) parts).
  { destruct (H _ s (Nat.le_refl _)) as (parts & _ & ? & ?). eauto. }
  assert (Hph : nodeshell.placeholder <> "") by discriminate.
  clear s. induction n as [|n IH]; intros s Hlen;
    (destruct (Contains s nodeshell.placeholder) eqn:E;
     [|exists [s]; repeat split; [discriminate | now constructor]]);
    destruct (Contains_split _ _ Hph E) as (pre & rest & -> & Hpre);
    rewrite !length_append in Hlen;
    change (String.length nodeshell.placeholder) with 6 in Hlen; [lia|].
  destruct (IH rest ltac:(lia)) as (parts & Hne & -> & Hparts).
  exists (pre :: parts). repeat split; [discriminate| |now constructor].
  destruct parts; [congruence|]. now rewrite Join_cons.
Qed.

End StringFacts.

(** * The settings resolver *)

Section Settings.
Import config.

Lemma eqb_empty (s : string) : String.eqb s "" = true <-> s = "".
Proof. apply String.eqb_eq. Qed.

Lemma Validate_no_error (c : Config) : snd (Validate c) = None.
Proof. reflexivity. Qed.

Lemma Validate_PodName (c : Config) :
  PodName (fst (Validate c)) =
  if String.eqb (PodName c) "" then defaultPodName else PodName c.
Proof.
  destruct c as [[|? ?] [|? ?] [|? ?] [|? ?] [|? ?]]; reflexivity.
Qed.

Lemma Load_parsed (h : Host) (configPath path data : string) (cfg : Config) :
  resolvePath h configPath = inl path ->
  ReadFile h path = inl data ->
  Unmarshal h data = inl cfg ->
  Load h configPath = inl (fst (Validate cfg)).
Proof. intros Hp Hr Hu. unfold Load. now rewrite Hp, Hr, Hu. Qed.

Lemma Load_no_ValidateError (h : Host) (configPath cause : string) :
  Load h configPath <> inr (ValidateError cause).
Proof.
  unfold Load, resolvePath.
  destruct (String.eqb configPath ""); [destruct (UserHomeDir h)|];
    try discriminate;
    (destruct (ReadFile h _) as [data|err];
     [destruct (Unmarshal h data); discriminate
     |destruct (IsNotExist err); discriminate]).
Qed.

Lemma Validate_zero : fst (Validate zero) = Default.
Proof. reflexivity. Qed.

End Settings.

(** C8: defaulting is per field.  After [Validate], each of the five fields
    holds its built-in default when it was empty and its old value
    otherwise, whatever the other fields hold. *)
Theorem Validate_defaults_per_field (c : config.Config) :
  let c' := fst (config.Validate c) in
  config.Image c' =
    (if String.eqb (config.Image c) "" then "uhub.service.ucloud.cn/library/alpine:latest"
     else config.Image c) /\
  config.PauseCommand c' =
    (match config.PauseCommand c with [] => ["sleep"; "infinity"] | _ => config.PauseCommand c end) /\
  config.ShellCommand c' =
    (match config.ShellCommand c with [] => ["bash"] | _ => config.ShellCommand c end) /\
  config.PodNamespace c' =
    (if String.eqb (config.PodNamespace c) "" then "kube-system" else config.PodNamespace c) /\
  config.PodName c' =
    (if String.eqb (config.PodName c) "" then "node-shell-{node}" else config.PodName c).
Proof.
  destruct c as [[|? ?] [|? ?] [|? ?] [|? ?] [|? ?]]; repeat split; reflexivity.
Qed.

(** C9: when the file at the resolved path does not exist, [Load] returns
    the built-in settings, all five fields set, and no error; a host where
    the file exists and parses to the empty record gets the same result. *)
Theorem Load_missing_file (h : config.Host) (configPath path : string) (err : config.FileError) :
  config.resolvePath h configPath = inl path ->
  config.ReadFile h path = inr err ->
  config.IsNotExist err = true ->
  config.Load h configPath = inl config.Default /\
  config.Default =
    config.mkConfig "uhub.service.ucloud.cn/library/alpine:latest"
      ["sleep"; "infinity"] ["bash"] "kube-system" "node-shell-{node}" /\
  (forall (h' : config.Host) (data : string),
      config.resolvePath h' configPath = inl path ->
      config.ReadFile h' path = inl data ->
      config.Unmarshal h' data = inl config.zero ->
      config.Load h' configPath = config.Load h configPath).
Proof.
  intros Hp Hr He.
  assert (HL : config.Load h configPath = inl config.Default).
  { unfold config.Load. now rewrite Hp, Hr, He. }
  split; [exact HL|]. split; [reflexivity|].
  intros h' data Hp' Hr' Hu'.
  rewrite HL, (Load_parsed h' configPath path data config.zero) by assumption.
  now rewrite Validate_zero.
Qed.

Lemma Load_missing_file_witness :
  config.Load examples.hostNoFile "" = inl config.Default /\
  config.Load examples.hostEmptyFile "" = config.Load examples.hostNoFile "".
Proof.
  destruct (Load_missing_file examples.hostNoFile "" "/home/op/.config/kubesh.yaml"
              config.ErrNotExist eq_refl eq_refl eq_refl) as (HL & _ & Hsame).
  split; [exact HL|].
  exact (Hsame examples.hostEmptyFile "" eq_refl eq_refl eq_refl).
Defined.

(** C10: [Validate] returns no error on any record, so [Load] never returns
    a validation error and accepts every file that is read and parsed; a
    pod name template that is set is kept as it is, with or without the
    placeholder. *)
Theorem Validate_never_fails (c : config.Config) :
  snd (config.Validate c) = None /\
  (forall (h : config.Host) (configPath cause : string),
      config.Load h configPath <> inr (config.ValidateError cause)) /\
  (forall (h : config.Host) (configPath path data : string),
      config.resolvePath h configPath = inl path ->
      config.ReadFile h path = inl data ->
      config.Unmarshal h data = inl c ->
      config.Load h configPath = inl (fst (config.Validate c))) /\
  (config.PodName c <> "" ->
   gostrings.Contains (config.PodName c) nodeshell.placeholder = false ->
   config.PodName (fst (config.Validate c)) = config.PodName c).
Proof.
  split; [reflexivity|]. split; [apply Load_no_ValidateError|].
  split; [intros; eapply Load_parsed; eassumption|].
  intros Hne _. rewrite Validate_PodName.
  destruct (String.eqb (config.PodName c) "") eqn:E; [|reflexivity].
  now apply String.eqb_eq in E.
Qed.

Lemma Validate_never_fails_witness :
  config.Load examples.hostFixedName "/etc/kubesh.yaml"
    = inl (fst (config.Validate examples.fixedName)) /\
  config.PodName (fst (config.Validate examples.fixedName)) = "shell".
Proof.
  destruct (Validate_never_fails examples.fixedName) as (_ & _ & Hload & Hname).
  split.
  - exact (Hload examples.hostFixedName "/etc/kubesh.yaml" "/etc/kubesh.yaml"
             "podName: shell" eq_refl eq_refl eq_refl).
  - apply Hname; [discriminate | reflexivity].
Defined.

(** * The pod name *)

Lemma New_session (node : string) (cfg : config.Config)
      (sched : list world.SelectCase) (w w' : world.World) (ns : nodeshell.NodeShell) :
  nodeshell.New node cfg sched w = (world.Returned (inl ns), w') ->
  ns = nodeshell.newShell node cfg.
Proof.
  unfold nodeshell.New.
  destruct (nodeshell.start _ sched w) as [[[err|]|] w1]; intros H; now inversion H.
Qed.

(** C7: the pod name of a session is its template with every instance of
    "{node}" replaced by the node name.  The template is cut at the
    instances of "{node}" into pieces that hold none, and the pod name is
    these pieces joined by the node name; this holds for every such cut.
    For "node-shell-{node}" and "worker-3" it is "node-shell-worker-3". *)
Theorem podName_substitutes_node (node : string) (cfg : config.Config) :
  (exists parts,
      config.PodName cfg = gostrings.Join parts "{node}" /\
      Forall (fun p => gostrings.Contains p "{node}" = false) parts /\
      nodeshell.podName (nodeshell.newShell node cfg) = gostrings.Join parts node) /\
  (forall parts,
      config.PodName cfg = gostrings.Join parts "{node}" ->
      Forall (fun p => gostrings.Contains p "{node}" = false) parts ->
      nodeshell.podName (nodeshell.newShell node cfg) = gostrings.Join parts node) /\
  (forall sched w w' ns,
      nodeshell.New node cfg sched w = (world.Returned (inl ns), w') ->
      nodeshell.podName ns = nodeshell.podName (nodeshell.newShell node cfg)) /\
  nodeshell.podName
    (nodeshell.newShell "worker-3" (config.setPodName "node-shell-{node}" cfg))
  = "node-shell-worker-3".
Proof.
  assert (Hall : forall parts,
             config.PodName cfg = gostrings.Join parts "{node}" ->
             Forall (fun p => gostrings.Contains p "{node}" = false) parts ->
             nodeshell.podName (nodeshell.newShell node cfg) = gostrings.Join parts node).
  { intros parts Hcut Hparts. simpl. rewrite Hcut. now apply ReplaceAll_Join. }
  split; [|split; [exact Hall|split; [|reflexivity]]].
  - destruct (Join_exists (config.PodName cfg)) as (parts & Hcut & Hparts).
    exists parts. auto.
  - intros sched w w' ns H. now rewrite (New_session _ _ _ _ _ _ H).
Qed.

Lemma podName_substitutes_node_witness :
  nodeshell.podName (nodeshell.newShell "worker-3" config.Default)
  = gostrings.Join ["node-shell-"; ""] "worker-3".
Proof.
  apply (proj1 (proj2 (podName_substitutes_node "worker-3" config.Default))).
  - reflexivity.
  - repeat constructor.
Defined.

(** * Facts about the API calls *)

Section Calls.
Local Open Scope list_scope.
Import k8s world.

Lemma getNode_trace (name : string) (w : World) :
  trace (snd (getNode name w))
  = trace w ++ [ECall (GetNode name) (replyOf (fst (getNode name w)))].
Proof. unfold getNode. now destruct (envMove w) as [[cl flt] rest]. Qed.

Lemma getNamespace_trace (name : string) (w : World) :
  trace (snd (getNamespace name w))
  = trace w ++ [ECall (GetNamespace name) (replyOf (fst (getNamespace name w)))].
Proof. unfold getNamespace. now destruct (envMove w) as [[cl flt] rest]. Qed.

Lemma getPod_trace (ns name : string) (w : World) :
  trace (snd (getPod ns name w))
  = trace w ++ [ECall (GetPod ns name) (replyOfPod (fst (getPod ns name w)))].
Proof. unfold getPod. now destruct (envMove w) as [[cl flt] rest]. Qed.

Lemma createPod_trace (ns : string) (pod : Pod) (w : World) :
  trace (snd (createPod ns pod w))
  = trace w ++ [ECall (CreatePod ns pod) (replyOfPod (fst (createPod ns pod w)))].
Proof.
  unfold createPod. destruct (envMove w) as [[cl flt] rest].
  destruct flt; [reflexivity|]. now destruct (pods cl !! _).
Qed.

Lemma deletePod_trace (ns name : string) (w : World) :
  trace (snd (deletePod ns name w))
  = trace w ++ [ECall (DeletePod ns name) (replyOf (fst (deletePod ns name w)))].
Proof.
  unfold deletePod. destruct (envMove w) as [[cl flt] rest].
  destruct flt; [reflexivity|]. now destruct (pods cl !! _).
Qed.

(** A pod that a lookup returns is in the cluster the lookup leaves. *)
Lemma getPod_found (ns name : string) (w w' : World) (pod : Pod) :
  getPod ns name w = (inl pod, w') ->
  pods (cluster w') !! (ns, name) = Some pod.
Proof.
  unfold getPod. destruct (envMove w) as [[cl flt] rest].
  destruct flt; [discriminate|].
  destruct (pods cl !! (ns, name)) eqn:E; intros H; inversion H; subst. exact E.
Qed.

End Calls.

(** * The polling phase *)

Section Polling.
Import k8s world nodeshell observe.
Local Open Scope list_scope.

Lemma pollEnd_step (n : NodeShell) (sched : list SelectCase) (k : nat)
      (out : Returns (option Error)) (final : list Effect) :
  pollEnd n sched k out final -> pollEnd n (TickCase :: sched) (S k) out final.
Proof.
  unfold pollEnd.
  intros [(-> & -> & ->)|[(rest & -> & -> & ->)|[(rest & pod & -> & ? & -> & ->)
                                                |(rest & cause & -> & ? & -> & ->)]]].
  - left. auto.
  - right; left. exists rest. auto.
  - right; right; left. exists rest, pod. auto.
  - right; right; right. exists rest, cause. auto.
Qed.

Lemma waitRunning_outcome (n : NodeShell) (sched : list SelectCase) (w : World) :
  exists replies final,
    Forall (fun r => retried r = true) replies /\
    trace (snd (waitRunning n sched w))
    = trace w ++ flat_map (pollRound n) replies ++ final /\
    pollEnd n sched (List.length replies) (fst (waitRunning n sched w)) final.
Proof.
  revert w. induction sched as [|c sched IH]; intros w.
  - exists [], []. simpl. rewrite app_nil_r. repeat split; [constructor|].
    left. auto.
  - destruct c.
    + simpl.
      pose proof (getPod_trace (config.PodNamespace (config n)) (podName n)
                    (emit [ERecv TickCase] w)) as Ht.
      destruct (getPod _ _ (emit [ERecv TickCase] w)) as [[pod|err] w1].
      * simpl in Ht.
        destruct (String.eqb (Phase (Status pod)) PodRunning) eqn:E.
        -- exists [], (pollRound n (ReplyPod pod)). simpl. rewrite Ht, <- app_assoc.
           repeat split; [constructor|].
           right; right; left. exists sched, pod.
           apply String.eqb_eq in E. auto.
        -- destruct (IH w1) as (replies & final & Hr & Htr & Hend).
           exists (ReplyPod pod :: replies), final. simpl.
           rewrite Htr, Ht, <- !app_assoc. repeat split.
           ++ constructor; [simpl; now rewrite E | assumption].
           ++ now apply pollEnd_step.
      * simpl in Ht.
        destruct (IsNotFound err) eqn:E; simpl.
        -- destruct (IH w1) as (replies & final & Hr & Htr & Hend).
           exists (ReplyErr err :: replies), final. simpl.
           rewrite Htr, Ht, <- !app_assoc. repeat split.
           ++ constructor; assumption.
           ++ now apply pollEnd_step.
        -- exists [], (pollRound n (ReplyErr err)). simpl. rewrite Ht, <- app_assoc.
           repeat split; [constructor|].
           right; right; right. exists sched, err. auto.
    + exists [], [ERecv TimeoutCase]. simpl. repeat split; [constructor|].
      right; left. exists sched. auto.
Qed.

Lemma waitStartup_outcome (n : NodeShell) (sched : list SelectCase) (w : World) :
  exists replies final,
    Forall (fun r => retried r = true) replies /\
    trace (snd (waitStartup n sched w))
    = trace w
        ++ [ENewTicker 1000000000; ENewTimer 60000000000]
        ++ flat_map (pollRound n) replies ++ final /\
    pollEnd n sched (List.length replies) (fst (waitStartup n sched w)) final.
Proof.
  unfold waitStartup.
  destruct (waitRunning_outcome n sched
              (emit [ENewTicker checkPodStatusInterval;
                     ENewTimer checkPodStatusTimeout] w))
    as (replies & final & Hr & Htr & Hend).
  exists replies, final. repeat split; [assumption| |assumption].
  rewrite Htr. simpl. now rewrite <- app_assoc.
Qed.

(** The polls, one after the other. *)
Lemma pollWorld_shift (n : NodeShell) (w : World) (i : nat) :
  polling.pollWorld n w (S i) = polling.pollWorld n (polling.pollWorld n w 1) i.
Proof.
  induction i as [|i IH]; [reflexivity|].
  change (polling.pollWorld n w (S (S i)))
    with (snd (getPod (config.PodNamespace (config n)) (podName n)
                 (emit [ERecv TickCase] (polling.pollWorld n w (S i))))).
  rewrite IH. reflexivity.
Qed.

Lemma pollReply_shift (n : NodeShell) (w : World) (i : nat) :
  polling.pollReply n w (S i) = polling.pollReply n (polling.pollWorld n w 1) i.
Proof. unfold polling.pollReply. now rewrite pollWorld_shift. Qed.

Lemma waitRunning_tick (n : NodeShell) (sched : list SelectCase) (w : World) :
  waitRunning n (TickCase :: sched) w
  = match polling.pollReply n w 0 with
    | inr err =>
        if negb (IsNotFound err)
        then (Returned (Some (GetPodError err)), polling.pollWorld n w 1)
        else waitRunning n sched (polling.pollWorld n w 1)
    | inl pod =>
        if String.eqb (Phase (Status pod)) PodRunning
        then (Returned None, polling.pollWorld n w 1)
        else waitRunning n sched (polling.pollWorld n w 1)
    end.
Proof.
  unfold polling.pollReply. simpl.
  now destruct (getPod _ _ (emit [ERecv TickCase] w)) as [[pod|err] w1].
Qed.

(** As long as the polls are answered "not found" or by a pod that is not
    running, the loop goes on, poll by poll. *)
Lemma waitRunning_retries (n : NodeShell) (k : nat) (sched : list SelectCase) :
  forall w,
    (forall i, i < k -> retried (replyOfPod (polling.pollReply n w i)) = true) ->
    waitRunning n (repeat TickCase k ++ sched) w
    = waitRunning n sched (polling.pollWorld n w k).
Proof.
  induction k as [|k IH]; intros w Hr; [reflexivity|].
  simpl repeat. simpl app. rewrite waitRunning_tick.
  pose proof (Hr 0 ltac:(lia)) as H0.
  assert (Hk : forall i, i < k ->
                 retried (replyOfPod (polling.pollReply n (polling.pollWorld n w 1) i)) = true).
  { intros i Hi. rewrite <- pollReply_shift. apply Hr. lia. }
  destruct (polling.pollReply n w 0) as [pod|err]; simpl in H0.
  - destruct (String.eqb (Phase (Status pod)) PodRunning); [discriminate|].
    etransitivity; [exact (IH _ Hk)|]. now rewrite <- pollWorld_shift.
  - rewrite H0. simpl. etransitivity; [exact (IH _ Hk)|]. now rewrite <- pollWorld_shift.
Qed.

(** What the polling phase returns, from the answers to the polls. *)
Lemma waitStartup_forward (n : NodeShell) (k : nat) (rest : list SelectCase) (w : World) :
  let w1 := emit [ENewTicker 1000000000; ENewTimer 60000000000] w in
  (forall i, i < k -> retried (replyOfPod (polling.pollReply n w1 i)) = true) ->
  waitStartup n (repeat TickCase k ++ TimeoutCase :: rest) w
  = (Returned (Some StartupTimeout), emit [ERecv TimeoutCase] (polling.pollWorld n w1 k)) /\
  (forall pod,
      polling.pollReply n w1 k = inl pod ->
      Phase (Status pod) = PodRunning ->
      waitStartup n (repeat TickCase k ++ TickCase :: rest) w
      = (Returned None, polling.pollWorld n w1 (S k))) /\
  (forall err,
      polling.pollReply n w1 k = inr err ->
      IsNotFound err = false ->
      waitStartup n (repeat TickCase k ++ TickCase :: rest) w
      = (Returned (Some (GetPodError err)), polling.pollWorld n w1 (S k))).
Proof.
  intros w1 Hr. unfold waitStartup.
  change (emit [ENewTicker checkPodStatusInterval; ENewTimer checkPodStatusTimeout] w) with w1.
  rewrite !(waitRunning_retries n k _ w1 Hr). split; [reflexivity|].
  split.
  - intros pod Hp Hrun. rewrite waitRunning_tick.
    change (polling.pollReply n (polling.pollWorld n w1 k) 0) with (polling.pollReply n w1 k).
    rewrite Hp, Hrun. reflexivity.
  - intros err Hp He. rewrite waitRunning_tick.
    change (polling.pollReply n (polling.pollWorld n w1 k) 0) with (polling.pollReply n w1 k).
    rewrite Hp, He. reflexivity.
Qed.

End Polling.

(** * The polling phase in time *)

Section Timing.
Import world gotime.
Local Open Scope Z_scope.

Lemma issued_tick (d t : Z) (c : Clock) (lat : list Z) (sched : list SelectCase) :
  issued d t c lat (TickCase :: sched)
  = if tickReady d (wake d t c) then
      match lat with
      | [] => None
      | l :: lat =>
          option_map (cons (now (wake d t c)))
            (issued d t (mkClock (now (wake d t c) + l) (now (wake d t c) / d)) lat sched)
      end
    else None.
Proof. reflexivity. Qed.

Lemma issued_timeout (d t : Z) (c : Clock) (lat : list Z) (sched : list SelectCase) :
  issued d t c lat (TimeoutCase :: sched)
  = if timerReady t (wake d t c) then Some [] else None.
Proof. reflexivity. Qed.

Lemma issued_in_step (sched : list SelectCase) :
  forall (c : Clock) (lat : list Z) (ts : list Z),
    gotime.inStep c ->
    Forall (fun l => 0 <= l < 1000000000) lat ->
    issued 1000000000 60000000000 c lat sched = Some ts ->
    Forall (fun t => t <= 60000000000) ts /\
    Z.of_nat (List.length ts) <= 60 - seen c.
Proof.
  induction sched as [|[] sched IH]; intros c lat ts (Hnow & Hseen & Hmax) Hlat Hrun.
  - change (Some [] = Some ts) in Hrun. injection Hrun as <-.
    split; [constructor|simpl; lia].
  - rewrite issued_tick in Hrun.
    assert (Hnot : tickReady 1000000000 c = false).
    { unfold tickReady. apply Z.ltb_ge. lia. }
    unfold wake in Hrun. rewrite Hnot in Hrun. simpl in Hrun.
    destruct (timerReady 60000000000 c) eqn:Ht.
    { rewrite Hnot in Hrun. discriminate. }
    unfold timerReady in Ht. apply Z.leb_gt in Ht.
    assert (Hs : seen c <= 59) by (rewrite Hseen; Z.div_mod_to_equations; lia).
    assert (Hw : Z.min ((now c / 1000000000 + 1) * 1000000000) 60000000000
                 = (seen c + 1) * 1000000000) by (rewrite <- Hseen; lia).
    rewrite Hw in Hrun. clear Hw.
    destruct (tickReady _ _); [|discriminate]. cbn [now] in Hrun.
    destruct lat as [|l lat]; [discriminate|].
    inversion Hlat as [|? ? Hl Hlat']; subst.
    destruct (issued _ _ _ lat sched) as [ts'|] eqn:Hrest; [|discriminate].
    simpl in Hrun. injection Hrun as <-.
    assert (Hin : inStep (mkClock ((seen c + 1) * 1000000000 + l)
                            ((seen c + 1) * 1000000000 / 1000000000))).
    { unfold inStep. cbn [now seen].
      repeat split; Z.div_mod_to_equations; lia. }
    destruct (IH _ lat ts' Hin Hlat' Hrest) as (Hle & Hlen).
    cbn [seen] in Hlen.
    split; [constructor; [lia|exact Hle]|].
    change (List.length (_ :: ts')) with (S (List.length ts')).
    replace ((seen c + 1) * 1000000000 / 1000000000) with (seen c + 1) in Hlen
      by (Z.div_mod_to_equations; lia).
    lia.
  - rewrite issued_timeout in Hrun. destruct (timerReady _ _); [|discriminate].
    injection Hrun as <-. split; [constructor|simpl; lia].
Qed.

(** The loop makes one call for each tick it takes, as long as it runs. *)
Lemma waitRunning_calls (n : nodeshell.NodeShell) (d t : Z) (sched : list SelectCase) :
  forall (w : World) (c : Clock) (lat ts : list Z),
    issued d t c lat sched = Some ts ->
    exists new,
      trace (snd (nodeshell.waitRunning n sched w)) = (trace w ++ new)%list /\
      (List.length (List.filter observe.isCall new) <= List.length ts)%nat.
Proof.
  induction sched as [|[] sched IH]; intros w c lat ts Hrun.
  - exists []. simpl. rewrite app_nil_r. split; [reflexivity|lia].
  - rewrite issued_tick in Hrun.
    destruct (tickReady _ _); [|discriminate].
    destruct lat as [|l lat]; [discriminate|].
    destruct (issued _ _ _ lat sched) as [ts'|] eqn:Hrest; [|discriminate].
    simpl in Hrun. injection Hrun as <-.
    assert (Hone : trace (polling.pollWorld n w 1)
                   = (trace w
                        ++ observe.pollRound n (replyOfPod (polling.pollReply n w 0)))%list).
    { unfold polling.pollWorld, polling.pollReply. rewrite getPod_trace. simpl.
      rewrite <- app_assoc. reflexivity. }
    destruct (IH (polling.pollWorld n w 1) _ lat ts' Hrest) as (new & Hnew & Hlen).
    rewrite waitRunning_tick.
    destruct (polling.pollReply n w 0) as [pod|err].
    + destruct (String.eqb _ _).
      * eexists. split; [exact Hone|]. simpl. lia.
      * eexists. split; [rewrite Hnew, Hone, <- app_assoc; reflexivity|]. simpl. lia.
    + destruct (negb _).
      * eexists. split; [exact Hone|]. simpl. lia.
      * eexists. split; [rewrite Hnew, Hone, <- app_assoc; reflexivity|]. simpl. lia.
  - exists [ERecv TimeoutCase]. split; [reflexivity|]. simpl. lia.
Qed.

End Timing.

(** C2, as the code has it: the polling phase of [start], for every
    schedule of the [select] and every behaviour of the cluster.  It makes a
    ticker of one second and a timer of sixty seconds.  Then come rounds,
    each a tick and a poll answered "not found" or by a pod that is not
    running: these are retried.  The run ends in one of four ways: blocked,
    when the schedule holds ticks only; with the startup timeout, when
    [select] takes the timer case, and nothing follows the receive; with
    success, at the first poll that returns a running pod, and nothing
    follows the poll; or with the poll's error, when that is not "not
    found".  A schedule in which the timer case comes up makes the phase
    return.  The other way round, the answers to the polls decide the
    result: after [k] polls that are retried, the timer case gives the
    startup timeout, a poll that finds the pod running gives success, and a
    poll that fails otherwise gives its error, each in the world that the
    polls made so far have left.  In time: when the runtime can take the
    cases of the schedule in this order and every poll takes less than a
    second, a tick is taken within the sixty seconds, sixty ticks are taken
    at most, and the phase makes one call at most for each of them. *)
Theorem polling_outcome (n : nodeshell.NodeShell) (sched : list world.SelectCase)
        (w : world.World) :
  (exists replies final,
      Forall (fun r => observe.retried r = true) replies /\
      world.trace (snd (nodeshell.waitStartup n sched w))
      = (world.trace w
           ++ [world.ENewTicker 1000000000; world.ENewTimer 60000000000]
           ++ flat_map (observe.pollRound n) replies ++ final)%list /\
      observe.pollEnd n sched (List.length replies)
        (fst (nodeshell.waitStartup n sched w)) final) /\
  (forall rest : list world.SelectCase,
      exists out,
        fst (nodeshell.waitStartup n (sched ++ world.TimeoutCase :: rest)%list w)
        = world.Returned out) /\
  (forall (k : nat) (rest : list world.SelectCase),
      let w1 := world.emit [world.ENewTicker 1000000000; world.ENewTimer 60000000000] w in
      (forall i, i < k ->
                 observe.retried (world.replyOfPod (polling.pollReply n w1 i)) = true) ->
      nodeshell.waitStartup n (repeat world.TickCase k ++ world.TimeoutCase :: rest)%list w
      = (world.Returned (Some nodeshell.StartupTimeout),
         world.emit [world.ERecv world.TimeoutCase] (polling.pollWorld n w1 k)) /\
      (forall pod,
          polling.pollReply n w1 k = inl pod ->
          k8s.Phase (k8s.Status pod) = k8s.PodRunning ->
          nodeshell.waitStartup n (repeat world.TickCase k ++ world.TickCase :: rest)%list w
          = (world.Returned None, polling.pollWorld n w1 (S k))) /\
      (forall err,
          polling.pollReply n w1 k = inr err ->
          k8s.IsNotFound err = false ->
          nodeshell.waitStartup n (repeat world.TickCase k ++ world.TickCase :: rest)%list w
          = (world.Returned (Some (nodeshell.GetPodError err)),
             polling.pollWorld n w1 (S k)))) /\
  (forall (lat ts : list Z),
      Forall (fun l => 0 <= l < 1000000000)%Z lat ->
      gotime.issued nodeshell.checkPodStatusInterval nodeshell.checkPodStatusTimeout
        gotime.start0 lat sched = Some ts ->
      Forall (fun t => t <= 60000000000)%Z ts /\
      List.length ts <= 60 /\
      exists new,
        world.trace (snd (nodeshell.waitStartup n sched w))
        = (world.trace w
             ++ [world.ENewTicker 1000000000; world.ENewTimer 60000000000] ++ new)%list /\
        List.length (List.filter observe.isCall new) <= List.length ts).
Proof.
  split; [apply waitStartup_outcome|]. split.
  { intros rest.
    destruct (waitStartup_outcome n (sched ++ world.TimeoutCase :: rest)%list w)
      as (replies & final & _ & _ & Hend).
    destruct (fst (nodeshell.waitStartup n _ w)) as [out|]; [eauto|exfalso].
    destruct Hend as [(_ & Hs & _)|[(? & H & _)|[(? & ? & H & _)|(? & ? & H & _)]]];
      try discriminate.
    assert (Hin : In world.TimeoutCase (repeat world.TickCase (List.length replies))).
    { rewrite <- Hs. apply in_or_app. right. now left. }
    apply repeat_spec in Hin. discriminate. }
  split; [intros k rest; apply waitStartup_forward|].
  intros lat ts Hlat Hrun.
  destruct (issued_in_step sched gotime.start0 lat ts) as (Hle & Hlen);
    [unfold gotime.inStep, gotime.start0; cbn [gotime.now gotime.seen];
     repeat split; (reflexivity || lia)|exact Hlat|exact Hrun|].
  split; [exact Hle|]. unfold gotime.start0 in Hlen. cbn [gotime.seen] in Hlen.
  split; [lia|].
  destruct (waitRunning_calls n _ _ sched
              (world.emit [world.ENewTicker nodeshell.checkPodStatusInterval;
                           world.ENewTimer nodeshell.checkPodStatusTimeout] w)
              gotime.start0 lat ts Hrun) as (new & Htr & Hcalls).
  exists new. split; [|exact Hcalls].
  unfold nodeshell.waitStartup. rewrite Htr. simpl. rewrite <- app_assoc. reflexivity.
Qed.

Lemma polling_outcome_witness :
  nodeshell.waitStartup examples.shellA [world.TickCase; world.TickCase; world.TimeoutCase]
    scenarios.pendingWorld
  = (world.Returned (Some nodeshell.StartupTimeout),
     world.emit [world.ERecv world.TimeoutCase]
       (polling.pollWorld examples.shellA
          (world.emit [world.ENewTicker 1000000000; world.ENewTimer 60000000000]
             scenarios.pendingWorld) 2)) /\
  List.length [1000000000; 2000000000]%Z <= 60.
Proof.
  split.
  - refine (proj1 (proj1 (proj2 (proj2 (polling_outcome examples.shellA
               [world.TickCase; world.TickCase; world.TimeoutCase]
               scenarios.pendingWorld))) 2 [] _)).
    intros i Hi.
    destruct i as [|[|i]]; [vm_compute; reflexivity|vm_compute; reflexivity|lia].
  - refine (proj1 (proj2 (proj2 (proj2 (proj2 (polling_outcome examples.shellA
               [world.TickCase; world.TickCase] scenarios.pendingWorld)))
               [0; 0]%Z [1000000000; 2000000000]%Z _ _))).
    + repeat constructor; lia.
    + vm_compute. reflexivity.
Defined.

(** C2 as stated fails: polls can be issued after the timer has fired.  The
    poll of second 59 takes a second and a half.  When it returns, at 60.5
    seconds, the timer has fired and the tick of second 60 waits in the
    ticker's channel; [select] may take either, takes the tick, and the loop
    polls once more before it takes the timer case. *)
Lemma poll_after_timer_fired :
  nodeshell.checkPodStatusTimeout = 60000000000%Z /\
  (exists ts,
      gotime.issued nodeshell.checkPodStatusInterval nodeshell.checkPodStatusTimeout
        gotime.start0 scenarios.slowLatencies scenarios.slowSchedule = Some ts /\
      List.length ts = 60 /\
      nth 59 ts 0%Z = 60500000000%Z) /\
  fst (nodeshell.waitStartup examples.shellA scenarios.slowSchedule scenarios.pendingWorld)
  = world.Returned (Some nodeshell.StartupTimeout) /\
  world.trace
    (snd (nodeshell.waitStartup examples.shellA scenarios.slowSchedule scenarios.pendingWorld))
  = ([world.ENewTicker 1000000000; world.ENewTimer 60000000000]
       ++ flat_map (observe.pollRound examples.shellA)
            (repeat (k8s.ReplyPod (marks.pending (nodeshell.buildPod examples.shellA))) 60)
       ++ [world.ERecv world.TimeoutCase])%list.
Proof.
  split; [reflexivity|]. split.
  - eexists. split; [vm_compute; reflexivity|]. split; reflexivity.
  - split; vm_compute; reflexivity.
Qed.

(** * The start of a session *)

Section Lifecycle.
Import k8s world nodeshell observe.
Local Open Scope list_scope.

Lemma createdPods_app (t u : list Effect) :
  createdPods (t ++ u) = createdPods t ++ createdPods u.
Proof. apply flat_map_app. Qed.

Lemma createdPods_rounds (n : NodeShell) (replies : list Reply) :
  createdPods (flat_map (pollRound n) replies) = [].
Proof. induction replies as [|r replies IH]; [reflexivity|exact IH]. Qed.

(** The polling phase asks for no pod to be created. *)
Lemma waitStartup_no_create (n : NodeShell) (sched : list SelectCase) (w : World) :
  exists new,
    trace (snd (waitStartup n sched w)) = trace w ++ new /\ createdPods new = [].
Proof.
  destruct (waitStartup_outcome n sched w) as (replies & final & _ & Htr & Hend).
  eexists. split; [exact Htr|].
  rewrite !createdPods_app, createdPods_rounds. simpl.
  destruct Hend as [(_ & _ & ->)|[(rest & _ & _ & ->)|[(rest & pod & _ & _ & _ & ->)
                                                      |(rest & cause & _ & _ & _ & ->)]]];
    reflexivity.
Qed.

(** A session that started has its pod in the cluster, running. *)
Lemma waitRunning_success (n : NodeShell) (sched : list SelectCase) (w w' : World) :
  waitRunning n sched w = (Returned None, w') ->
  exists pod,
    pods (cluster w') !! (config.PodNamespace (config n), podName n) = Some pod /\
    Phase (Status pod) = PodRunning.
Proof.
  revert w. induction sched as [|[] sched IH]; intros w; simpl; try discriminate.
  destruct (getPod _ _ (emit [ERecv TickCase] w)) as [[pod|err] w1] eqn:Hget.
  - destruct (String.eqb (Phase (Status pod)) PodRunning) eqn:E; [|apply IH].
    intros H. inversion H; subst. exists pod. split.
    + eapply getPod_found; eassumption.
    + now apply String.eqb_eq.
  - destruct (IsNotFound err); simpl; [apply IH|discriminate].
Qed.

Lemma start_success (n : NodeShell) (sched : list SelectCase) (w w' : World) :
  start n sched w = (Returned None, w') ->
  exists pod,
    pods (cluster w') !! (config.PodNamespace (config n), podName n) = Some pod /\
    Phase (Status pod) = PodRunning.
Proof.
  unfold start, waitStartup.
  destruct (getNode _ w) as [[err|] w1]; [destruct (IsNotFound err); discriminate|].
  destruct (getNamespace _ w1) as [[err|] w2]; [destruct (IsNotFound err); discriminate|].
  destruct (getPod _ _ w2) as [[pod|err] w3] eqn:Hget.
  - destruct (String.eqb (Phase (Status pod)) PodRunning) eqn:E;
      [|apply waitRunning_success].
    intros H. inversion H; subst. exists pod. split.
    + eapply getPod_found; eassumption.
    + now apply String.eqb_eq.
  - destruct (IsNotFound err); simpl; [|discriminate].
    destruct (createPod _ _ w3) as [[pod|err'] w4]; [apply waitRunning_success|discriminate].
Qed.

(** In a calm environment a request meets the cluster as it is. *)
Lemma envMove_calm (w : World) :
  Forall calm (script w) -> envMove w = (cluster w, None, tl (script w)).
Proof.
  unfold envMove. destruct (script w) as [|s rest]; [reflexivity|].
  intros H. inversion H as [|? ? [Hid Hflt] _]; subst. simpl.
  now rewrite Hid, Hflt.
Qed.

Lemma calm_tl (sc : list EnvStep) : Forall calm sc -> Forall calm (tl sc).
Proof. destruct 1; [constructor|assumption]. Qed.

Lemma getNode_calm (name : string) (w : World) :
  Forall calm (script w) ->
  exists r,
    getNode name w
    = (r, mkWorld (cluster w) (tl (script w))
            (trace w ++ [ECall (GetNode name) (replyOf r)])).
Proof. intros H. unfold getNode. rewrite (envMove_calm w H). eauto. Qed.

Lemma getNamespace_calm (name : string) (w : World) :
  Forall calm (script w) ->
  exists r,
    getNamespace name w
    = (r, mkWorld (cluster w) (tl (script w))
            (trace w ++ [ECall (GetNamespace name) (replyOf r)])).
Proof. intros H. unfold getNamespace. rewrite (envMove_calm w H). eauto. Qed.

Lemma getPod_calm (ns name : string) (w : World) (pod : Pod) :
  Forall calm (script w) ->
  pods (cluster w) !! (ns, name) = Some pod ->
  getPod ns name w
  = (inl pod, mkWorld (cluster w) (tl (script w))
                (trace w ++ [ECall (GetPod ns name) (ReplyPod pod)])).
Proof. intros H Hpod. unfold getPod. now rewrite (envMove_calm w H), Hpod. Qed.

(** With the pod running and nothing else acting on the cluster, [start]
    asks for no pod to be created. *)
Lemma start_reuses (n : NodeShell) (sched : list SelectCase) (w : World) (pod : Pod) :
  pods (cluster w) !! (config.PodNamespace (config n), podName n) = Some pod ->
  Phase (Status pod) = PodRunning ->
  Forall calm (script w) ->
  exists new, trace (snd (start n sched w)) = trace w ++ new /\ createdPods new = [].
Proof.
  intros Hpod Hrun Hcalm. unfold start.
  destruct (getNode_calm (node n) w Hcalm) as [r1 ->].
  destruct r1 as [err|].
  { destruct (IsNotFound err); simpl; eexists; split; reflexivity. }
  set (w1 := mkWorld _ _ _).
  assert (Hcalm1 : Forall calm (script w1)) by now apply calm_tl.
  destruct (getNamespace_calm (config.PodNamespace (config n)) w1 Hcalm1) as [r2 ->].
  destruct r2 as [err|].
  { destruct (IsNotFound err); simpl; rewrite <- app_assoc; eexists; split; reflexivity. }
  set (w2 := mkWorld _ _ _).
  assert (Hcalm2 : Forall calm (script w2)) by now apply calm_tl.
  rewrite (getPod_calm _ _ w2 pod Hcalm2 Hpod), Hrun. simpl.
  rewrite <- !app_assoc. eexists; split; reflexivity.
Qed.

(** [start] asks for at most one pod to be created, the one [buildPod]
    makes. *)
Lemma start_creates (n : NodeShell) (sched : list SelectCase) (w : World) :
  exists new,
    trace (snd (start n sched w)) = trace w ++ new /\
    (createdPods new = [] \/
     createdPods new = [(config.PodNamespace (config n), buildPod n)]).
Proof.
  unfold start.
  pose proof (getNode_trace (node n) w) as H1.
  destruct (getNode _ w) as [[err|] w1]; simpl in H1.
  { destruct (IsNotFound err); simpl; rewrite H1; eexists; split; eauto. }
  pose proof (getNamespace_trace (config.PodNamespace (config n)) w1) as H2.
  destruct (getNamespace _ w1) as [[err|] w2]; simpl in H2; rewrite H1 in H2.
  { destruct (IsNotFound err); simpl; rewrite H2, <- app_assoc; eexists; split; eauto. }
  pose proof (getPod_trace (config.PodNamespace (config n)) (podName n) w2) as H3.
  destruct (getPod _ _ w2) as [[pod|err] w3]; simpl in H3; rewrite H2 in H3.
  - destruct (String.eqb (Phase (Status pod)) PodRunning).
    + simpl. rewrite H3, <- !app_assoc. eexists; split; eauto.
    + destruct (waitStartup_no_create n sched w3) as (new & Htr & Hnone).
      rewrite Htr, H3, <- !app_assoc. eexists; split; [reflexivity|].
      left. simpl. exact Hnone.
  - destruct (IsNotFound err); simpl.
    2:{ rewrite H3, <- !app_assoc. eexists; split; eauto. }
    pose proof (createPod_trace (config.PodNamespace (config n)) (buildPod n) w3) as H4.
    destruct (createPod _ _ w3) as [[pod|err'] w4]; simpl in H4; rewrite H3 in H4.
    + destruct (waitStartup_no_create n sched w4) as (new & Htr & Hnone).
      rewrite Htr, H4, <- !app_assoc. eexists; split; [reflexivity|].
      right. simpl. now rewrite Hnone.
    + simpl. rewrite H4, <- !app_assoc. eexists; split; eauto.
Qed.

End Lifecycle.

(** C4: the pod that [buildPod] makes has host networking, host PID and
    host IPC enabled and exactly one container; the container is
    privileged, and its command followed by its arguments is nsenter -t 1
    -m -u -i -n followed by the configured pause command, in this order.
    With the built-in settings this is nsenter -t 1 -m -u -i -n sleep
    infinity.  It is the only pod [start] ever asks to be created, and it
    asks at most once. *)
Theorem buildPod_spec (n : nodeshell.NodeShell) :
  let spec := k8s.Spec (nodeshell.buildPod n) in
  k8s.HostNetwork spec = true /\
  k8s.HostPID spec = true /\
  k8s.HostIPC spec = true /\
  (exists c,
      k8s.Containers spec = [c] /\
      k8s.isPrivileged c = true /\
      k8s.fullCommand c
      = (["nsenter"; "-t"; "1"; "-m"; "-u"; "-i"; "-n"]
           ++ config.PauseCommand (nodeshell.config n))%list) /\
  (forall node : string,
      map k8s.fullCommand
        (k8s.Containers
           (k8s.Spec (nodeshell.buildPod (nodeshell.newShell node config.Default))))
      = [["nsenter"; "-t"; "1"; "-m"; "-u"; "-i"; "-n"; "sleep"; "infinity"]]) /\
  (forall (sched : list world.SelectCase) (w : world.World),
      exists new,
        world.trace (snd (nodeshell.start n sched w)) = (world.trace w ++ new)%list /\
        (observe.createdPods new = [] \/
         observe.createdPods new
         = [(config.PodNamespace (nodeshell.config n), nodeshell.buildPod n)])).
Proof.
  repeat split.
  - eexists. repeat split.
  - apply start_creates.
Qed.

(** C1, as the code has it: when the node and the namespace are found, the
    pod is not, and the create call fails, whatever the cause (a pod of
    that name existing already is one), [start] returns the create error
    with that cause; the create call is its last effect, there is no
    polling. *)
Theorem create_failure_is_fatal
        (n : nodeshell.NodeShell) (sched : list world.SelectCase)
        (w w1 w2 w3 w4 : world.World) (err cause : k8s.StatusError) :
  world.getNode (nodeshell.node n) w = (None, w1) ->
  world.getNamespace (config.PodNamespace (nodeshell.config n)) w1 = (None, w2) ->
  world.getPod (config.PodNamespace (nodeshell.config n)) (nodeshell.podName n) w2
  = (inr err, w3) ->
  k8s.IsNotFound err = true ->
  world.createPod (config.PodNamespace (nodeshell.config n)) (nodeshell.buildPod n) w3
  = (inr cause, w4) ->
  nodeshell.start n sched w = (world.Returned (Some (nodeshell.CreatePodError cause)), w4) /\
  world.trace w4
  = (world.trace w3
       ++ [world.ECall
             (k8s.CreatePod (config.PodNamespace (nodeshell.config n)) (nodeshell.buildPod n))
             (k8s.ReplyErr cause)])%list.
Proof.
  intros H1 H2 H3 He H4. split.
  - unfold nodeshell.start. now rewrite H1, H2, H3, He, H4.
  - pose proof (createPod_trace (config.PodNamespace (nodeshell.config n))
                  (nodeshell.buildPod n) w3) as Ht.
    now rewrite H4 in Ht.
Qed.

Lemma create_failure_is_fatal_witness :
  fst (nodeshell.start examples.shellA [world.TickCase; world.TimeoutCase] examples.raceWorld)
  = world.Returned (Some (nodeshell.CreatePodError k8s.AlreadyExists)).
Proof.
  pose (w1 := snd (world.getNode "node-a" examples.raceWorld)).
  pose (w2 := snd (world.getNamespace "kube-system" w1)).
  pose (w3 := snd (world.getPod "kube-system" "node-shell-node-a" w2)).
  pose (w4 := snd (world.createPod "kube-system" (nodeshell.buildPod examples.shellA) w3)).
  rewrite (proj1 (create_failure_is_fatal examples.shellA
                    [world.TickCase; world.TimeoutCase] examples.raceWorld w1 w2 w3 w4
                    k8s.NotFound k8s.AlreadyExists
                    eq_refl eq_refl eq_refl eq_refl eq_refl)).
  reflexivity.
Defined.

(** C1 as stated fails: the node and the namespace are there, the pod is
    not found, another invocation creates it before the create call, the
    create call is answered "already exists", and [start] returns the
    create error without polling. *)
Lemma create_race_is_fatal :
  fst (nodeshell.start examples.shellA [world.TickCase; world.TimeoutCase] examples.raceWorld)
  = world.Returned (Some (nodeshell.CreatePodError k8s.AlreadyExists)) /\
  world.trace
    (snd (nodeshell.start examples.shellA [world.TickCase; world.TimeoutCase] examples.raceWorld))
  = [world.ECall (k8s.GetNode "node-a") k8s.ReplyOk;
     world.ECall (k8s.GetNamespace "kube-system") k8s.ReplyOk;
     world.ECall (k8s.GetPod "kube-system" "node-shell-node-a") (k8s.ReplyErr k8s.NotFound);
     world.ECall (k8s.CreatePod "kube-system" (nodeshell.buildPod examples.shellA))
       (k8s.ReplyErr k8s.AlreadyExists)].
Proof. split; vm_compute; reflexivity. Qed.

(** C3, as the code has it: when the node and the namespace are found and
    the pod is found running, [start] returns success after these three
    lookups and nothing else, so without a create call; and a call of
    [start] that follows one that returned success, with nothing else
    acting on the cluster from then on, makes no create call. *)
Theorem reuse_running_pod
        (n : nodeshell.NodeShell) (sched : list world.SelectCase) (w : world.World) :
  (forall (w1 w2 w3 : world.World) (pod : k8s.Pod),
      world.getNode (nodeshell.node n) w = (None, w1) ->
      world.getNamespace (config.PodNamespace (nodeshell.config n)) w1 = (None, w2) ->
      world.getPod (config.PodNamespace (nodeshell.config n)) (nodeshell.podName n) w2
      = (inl pod, w3) ->
      k8s.Phase (k8s.Status pod) = k8s.PodRunning ->
      nodeshell.start n sched w = (world.Returned None, w3) /\
      world.trace w3
      = (world.trace w
           ++ [world.ECall (k8s.GetNode (nodeshell.node n)) k8s.ReplyOk;
               world.ECall (k8s.GetNamespace (config.PodNamespace (nodeshell.config n)))
                 k8s.ReplyOk;
               world.ECall
                 (k8s.GetPod (config.PodNamespace (nodeshell.config n)) (nodeshell.podName n))
                 (k8s.ReplyPod pod)])%list) /\
  (forall (w' : world.World) (sched' : list world.SelectCase),
      nodeshell.start n sched w = (world.Returned None, w') ->
      Forall observe.calm (world.script w') ->
      exists new,
        world.trace (snd (nodeshell.start n sched' w')) = (world.trace w' ++ new)%list /\
        observe.createdPods new = []).
Proof.
  split.
  - intros w1 w2 w3 pod H1 H2 H3 Hrun. split.
    + unfold nodeshell.start. rewrite H1, H2, H3, Hrun. reflexivity.
    + pose proof (getNode_trace (nodeshell.node n) w) as T1.
      pose proof (getNamespace_trace (config.PodNamespace (nodeshell.config n)) w1) as T2.
      pose proof (getPod_trace (config.PodNamespace (nodeshell.config n))
                    (nodeshell.podName n) w2) as T3.
      rewrite H1 in T1. rewrite H2 in T2. rewrite H3 in T3. simpl in T1, T2, T3.
      rewrite T3, T2, T1, <- !app_assoc. reflexivity.
  - intros w' sched' Hfirst Hcalm.
    destruct (start_success n sched w w' Hfirst) as (pod & Hpod & Hrun).
    eapply start_reuses; eassumption.
Qed.

Lemma reuse_running_pod_witness :
  fst (nodeshell.start examples.shellA [world.TimeoutCase] examples.servedWorld)
  = world.Returned None /\
  exists new,
    world.trace
      (snd (nodeshell.start examples.shellA [world.TimeoutCase]
              (snd (nodeshell.start examples.shellA
                      [world.TickCase; world.TickCase; world.TimeoutCase]
                      examples.freshWorld))))
    = (world.trace
         (snd (nodeshell.start examples.shellA
                 [world.TickCase; world.TickCase; world.TimeoutCase]
                 examples.freshWorld)) ++ new)%list /\
    observe.createdPods new = [].
Proof.
  split.
  - pose (w1 := snd (world.getNode "node-a" examples.servedWorld)).
    pose (w2 := snd (world.getNamespace "kube-system" w1)).
    pose (w3 := snd (world.getPod "kube-system" "node-shell-node-a" w2)).
    rewrite (proj1 (proj1 (reuse_running_pod examples.shellA [world.TimeoutCase]
                             examples.servedWorld)
                      w1 w2 w3 examples.runningA eq_refl eq_refl eq_refl eq_refl)).
    reflexivity.
  - apply (proj2 (reuse_running_pod examples.shellA
                    [world.TickCase; world.TickCase; world.TimeoutCase]
                    examples.freshWorld)).
    + vm_compute. reflexivity.
    + vm_compute. constructor.
Defined.

(** C3 as stated fails: the pod of the computed name is in the target
    namespace and running, the node is gone from the cluster, and [start]
    returns the error of the node lookup. *)
Lemma running_pod_without_node :
  k8s.pods (world.cluster examples.staleWorld)
    !! (config.PodNamespace (nodeshell.config examples.shellB),
        nodeshell.podName examples.shellB)
  = Some examples.runningB /\
  k8s.Phase (k8s.Status examples.runningB) = k8s.PodRunning /\
  fst (nodeshell.start examples.shellB [world.TimeoutCase] examples.staleWorld)
  = world.Returned (Some (nodeshell.NodeNotFound "node-b")).
Proof. repeat split; vm_compute; reflexivity. Qed.

(** * Teardown *)

Section Teardown.
Import k8s world nodeshell observe.
Local Open Scope list_scope.

Lemma retryLoop_S (n : NodeShell) (togo : nat) (w : World) :
  retryLoop n (S togo) w =
  match Close n w with
  | (Some err, w) => retryLoop n togo (emit [ESleep closeRetryTime; EPrint (warning err)] w)
  | (None, w) => w
  end.
Proof. reflexivity. Qed.

(** A delete call that is answered by an error other than "not found". *)
Lemma Close_fails (n : NodeShell) (w : World) (s : EnvStep) (rest : list EnvStep)
      (err : StatusError) :
  script w = s :: rest ->
  fault s = Some err ->
  IsNotFound err = false ->
  Close n w
  = (Some (DeletePodError err),
     mkWorld (interfere s (cluster w)) rest
       (trace w ++ [ECall (DeletePod (config.PodNamespace (config n)) (podName n))
                      (ReplyErr err)])).
Proof.
  intros Hs Hf He. unfold Close, deletePod, envMove. now rewrite Hs, Hf, He.
Qed.

(** A delete call that the environment lets through: the pod is deleted or
    was not there, and [Close] returns no error either way. *)
Lemma Close_served (n : NodeShell) (w : World) (s : EnvStep) (rest : list EnvStep) :
  script w = s :: rest ->
  fault s = None ->
  exists r w',
    Close n w = (None, w') /\
    (r = ReplyOk \/ r = ReplyErr NotFound) /\
    trace w'
    = trace w ++ [ECall (DeletePod (config.PodNamespace (config n)) (podName n)) r] /\
    script w' = rest.
Proof.
  intros Hs Hf. unfold Close, deletePod, envMove. rewrite Hs, Hf.
  destruct (pods (interfere s (cluster w)) !! _); simpl; eauto 10.
Qed.

(** The loop goes through a run of failing delete calls, one iteration
    each. *)
Lemma retryLoop_failures (n : NodeShell) (errs : list StatusError) :
  forall (fails rest : list EnvStep) (togo : nat) (w : World),
    script w = fails ++ rest ->
    map fault fails = map Some errs ->
    Forall (fun err => IsNotFound err = false) errs ->
    exists w1,
      retryLoop n (List.length errs + togo) w = retryLoop n togo w1 /\
      trace w1 = trace w ++ flat_map (failedAttempt n) errs /\
      script w1 = rest.
Proof.
  induction errs as [|err errs IH]; intros fails rest togo w Hs Hf He.
  - destruct fails; [|discriminate]. exists w. simpl. now rewrite app_nil_r.
  - destruct fails as [|s fails]; [discriminate|].
    simpl in Hf. injection Hf as Hf Hfs. inversion He as [|? ? Herr Herrs]; subst.
    change (List.length (err :: errs) + togo) with (S (List.length errs + togo)).
    rewrite retryLoop_S, (Close_fails n w s (fails ++ rest) err) by assumption.
    edestruct (IH fails rest togo) as (w1 & Hloop & Htr & Hsc); [| exact Hfs | exact Herrs |].
    2:{ exists w1. split; [exact Hloop|]. split; [|exact Hsc].
        rewrite Htr. simpl. now rewrite <- !app_assoc. }
    reflexivity.
Qed.

Lemma failedAttempt_count (n : NodeShell) (errs : list StatusError) :
  List.length (List.filter isDelete (flat_map (failedAttempt n) errs)) = List.length errs /\
  List.length (List.filter isSleep (flat_map (failedAttempt n) errs)) = List.length errs /\
  List.length (List.filter isPrint (flat_map (failedAttempt n) errs)) = List.length errs.
Proof.
  induction errs as [|err errs (IH1 & IH2 & IH3)]; [repeat split|].
  cbn. rewrite IH1, IH2, IH3. repeat split.
Qed.

End Teardown.

(** C5: [RetryClose] when the delete call fails with errors other than "not
    found".  With four failures and then a call that is let through, it
    makes exactly five delete calls and four delays of three seconds, one
    after each failure, and the last call deletes the pod or finds it gone.
    With five failures it makes exactly five delete calls, prints five
    warnings, takes no sixth move of the environment, and returns; its
    result carries no error. *)
Theorem RetryClose_bounded
        (n : nodeshell.NodeShell) (w : world.World)
        (fails : list world.EnvStep) (errs : list k8s.StatusError) :
  map world.fault fails = map Some errs ->
  Forall (fun err => k8s.IsNotFound err = false) errs ->
  (List.length errs = 4 ->
   forall (s : world.EnvStep) (rest : list world.EnvStep),
     world.script w = (fails ++ s :: rest)%list ->
     world.fault s = None ->
     exists r new,
       (r = k8s.ReplyOk \/ r = k8s.ReplyErr k8s.NotFound) /\
       new = (flat_map (observe.failedAttempt n) errs
                ++ [world.ECall
                      (k8s.DeletePod (config.PodNamespace (nodeshell.config n))
                         (nodeshell.podName n)) r])%list /\
       world.trace (nodeshell.RetryClose n w) = (world.trace w ++ new)%list /\
       world.script (nodeshell.RetryClose n w) = rest /\
       List.length (List.filter observe.isDelete new) = 5 /\
       List.length (List.filter observe.isSleep new) = 4 /\
       Forall (fun e => observe.isSleep e = true -> e = world.ESleep 3000000000) new) /\
  (List.length errs = 5 ->
   forall rest : list world.EnvStep,
     world.script w = (fails ++ rest)%list ->
     world.trace (nodeshell.RetryClose n w)
     = (world.trace w ++ flat_map (observe.failedAttempt n) errs)%list /\
     world.script (nodeshell.RetryClose n w) = rest /\
     List.length (List.filter observe.isDelete (flat_map (observe.failedAttempt n) errs)) = 5 /\
     List.length (List.filter observe.isPrint (flat_map (observe.failedAttempt n) errs)) = 5).
Proof.
  intros Hf He. split.
  - intros Hlen s rest Hs Hfs.
    destruct (retryLoop_failures n errs fails (s :: rest) 1 w Hs Hf He)
      as (w1 & Hloop & Htr & Hsc).
    unfold nodeshell.RetryClose.
    change nodeshell.closeMaxRetry with (4 + 1). rewrite <- Hlen, Hloop, retryLoop_S.
    destruct (Close_served n w1 s rest Hsc Hfs) as (r & w' & -> & Hr & Htr' & Hsc').
    exists r, (flat_map (observe.failedAttempt n) errs
                 ++ [world.ECall
                       (k8s.DeletePod (config.PodNamespace (nodeshell.config n))
                          (nodeshell.podName n)) r])%list.
    split; [exact Hr|]. split; [reflexivity|].
    split; [now rewrite Htr', Htr, <- app_assoc|]. split; [exact Hsc'|].
    destruct (failedAttempt_count n errs) as (C1 & C2 & _).
    rewrite !List.filter_app, !length_app, C1, C2, Hlen.
    repeat split.
    apply Forall_app. split.
    + clear. induction errs as [|err errs IH]; [constructor|].
      simpl. repeat constructor; try discriminate. exact IH.
    + repeat constructor. discriminate.
  - intros Hlen rest Hs.
    destruct (retryLoop_failures n errs fails rest 0 w Hs Hf He)
      as (w1 & Hloop & Htr & Hsc).
    unfold nodeshell.RetryClose.
    change nodeshell.closeMaxRetry with (5 + 0). rewrite <- Hlen, Hloop.
    destruct (failedAttempt_count n errs) as (C1 & _ & C3).
    rewrite C1, C3, Hlen. simpl. auto.
Qed.

Lemma RetryClose_bounded_witness :
  List.length (List.filter observe.isDelete
                 (world.trace (nodeshell.RetryClose examples.shellA examples.flakyWorld))) = 5
  /\ world.script (nodeshell.RetryClose examples.shellA examples.downWorld) = [examples.quiet].
Proof.
  split.
  - destruct (proj1 (RetryClose_bounded examples.shellA examples.flakyWorld
                       (repeat (examples.failing examples.unavailable) 4)
                       (repeat examples.unavailable 4)
                       eq_refl ltac:(repeat constructor))
                eq_refl examples.quiet [] eq_refl eq_refl)
      as (r & new & _ & _ & Htr & _ & Hdel & _).
    rewrite Htr. exact Hdel.
  - exact (proj1 (proj2 (proj2 (RetryClose_bounded examples.shellA examples.downWorld
                           (repeat (examples.failing examples.unavailable) 5)
                           (repeat examples.unavailable 5)
                           eq_refl ltac:(repeat constructor))
                    eq_refl [examples.quiet] eq_refl))).
Defined.

(** C6: when the delete call is answered "not found", [Close] returns no
    error, and both [Close] and [RetryClose] leave the world as the one
    call left it: one delete call, no delay, no warning, no retry. *)
Theorem teardown_not_found
        (n : nodeshell.NodeShell) (w w' : world.World) (err : k8s.StatusError) :
  world.deletePod (config.PodNamespace (nodeshell.config n)) (nodeshell.podName n) w
  = (Some err, w') ->
  k8s.IsNotFound err = true ->
  nodeshell.Close n w = (None, w') /\
  nodeshell.RetryClose n w = w' /\
  world.trace w'
  = (world.trace w
       ++ [world.ECall
             (k8s.DeletePod (config.PodNamespace (nodeshell.config n)) (nodeshell.podName n))
             (k8s.ReplyErr k8s.NotFound)])%list.
Proof.
  intros Hd He.
  assert (HC : nodeshell.Close n w = (None, w')).
  { unfold nodeshell.Close. now rewrite Hd, He. }
  split; [exact HC|]. split.
  - unfold nodeshell.RetryClose, nodeshell.closeMaxRetry. now rewrite retryLoop_S, HC.
  - pose proof (deletePod_trace (config.PodNamespace (nodeshell.config n))
                  (nodeshell.podName n) w) as Ht.
    rewrite Hd in Ht. destruct err; try discriminate. exact Ht.
Qed.

Lemma teardown_not_found_witness :
  world.trace (nodeshell.RetryClose examples.shellA examples.goneWorld)
  = [world.ECall (k8s.DeletePod "kube-system" "node-shell-node-a") (k8s.ReplyErr k8s.NotFound)].
Proof.
  pose (w' := snd (world.deletePod "kube-system" "node-shell-node-a" examples.goneWorld)).
  rewrite (proj1 (proj2 (teardown_not_found examples.shellA examples.goneWorld w'
                           k8s.NotFound eq_refl eq_refl))).
  reflexivity.
Defined.

(** * More on the settings resolver *)

Lemma Validate_complete (c : config.Config) :
  let c' := fst (config.Validate c) in
  config.Image c' <> "" /\
  config.PauseCommand c' <> [] /\
  config.ShellCommand c' <> [] /\
  config.PodNamespace c' <> "" /\
  config.PodName c' <> "" /\
  config.Validate c' = (c', None).
Proof.
  destruct c as [[|? ?] [|? ?] [|? ?] [|? ?] [|? ?]]; repeat split; discriminate.
Qed.

(** After [Validate] no field is empty, and validating again changes
    nothing. *)
Theorem Validate_settles (c : config.Config) :
  let c' := fst (config.Validate c) in
  config.Image c' <> "" /\
  config.PauseCommand c' <> [] /\
  config.ShellCommand c' <> [] /\
  config.PodNamespace c' <> "" /\
  config.PodName c' <> "" /\
  config.Validate c' = (c', None).
Proof. apply Validate_complete. Qed.

Lemma Load_cases (h : config.Host) (configPath : string) (cfg : config.Config) :
  config.Load h configPath = inl cfg ->
  cfg = config.Default \/ exists c, cfg = fst (config.Validate c).
Proof.
  unfold config.Load.
  destruct (config.resolvePath h configPath) as [path|]; [|discriminate].
  destruct (config.ReadFile h path) as [data|fe].
  - destruct (config.Unmarshal h data) as [c|]; [|discriminate].
    intros H. right. exists c.
    pose proof (Validate_no_error c) as Hn.
    destruct (config.Validate c) as [c' e]. simpl in Hn. subst e. simpl. congruence.
  - destruct (config.IsNotExist fe); [|discriminate]. intros H. left. congruence.
Qed.

(** Every settings record that [Load] returns has its five fields set, and
    is left as it is by [Validate]. *)
Theorem Load_returns_complete_settings
        (h : config.Host) (configPath : string) (cfg : config.Config) :
  config.Load h configPath = inl cfg ->
  config.Image cfg <> "" /\
  config.PauseCommand cfg <> [] /\
  config.ShellCommand cfg <> [] /\
  config.PodNamespace cfg <> "" /\
  config.PodName cfg <> "" /\
  config.Validate cfg = (cfg, None).
Proof.
  intros H. destruct (Load_cases h configPath cfg H) as [->|[c ->]].
  - repeat split; discriminate.
  - apply Validate_complete.
Qed.

Lemma Load_returns_complete_settings_witness :
  config.Image (fst (config.Validate examples.fixedName)) <> "" /\
  config.PodName (fst (config.Validate examples.fixedName)) <> "".
Proof.
  destruct (Load_returns_complete_settings examples.hostFixedName "/etc/kubesh.yaml"
              (fst (config.Validate examples.fixedName)) eq_refl)
    as (H1 & _ & _ & _ & H5 & _).
  split; assumption.
Defined.

(** With a path given, [Load] looks at the file of that path and at nothing
    else of the host: the home directory, which may be unknown, and the
    other files do not matter. *)
Theorem Load_explicit_path (h h' : config.Host) (configPath : string) :
  configPath <> "" ->
  config.ReadFile h' configPath = config.ReadFile h configPath ->
  (forall data, config.Unmarshal h' data = config.Unmarshal h data) ->
  config.Load h' configPath = config.Load h configPath.
Proof.
  intros Hne Hr Hu. unfold config.Load, config.resolvePath.
  destruct (String.eqb configPath "") eqn:E; [now apply String.eqb_eq in E|].
  rewrite Hr. destruct (config.ReadFile h configPath); [|reflexivity].
  now rewrite Hu.
Qed.

Lemma Load_explicit_path_witness :
  config.Load scenarios.hostNoHome "/etc/kubesh.yaml"
  = config.Load examples.hostFixedName "/etc/kubesh.yaml".
Proof.
  apply Load_explicit_path; [discriminate | reflexivity | reflexivity].
Defined.

(** [Load] fails in three ways only: the home directory is needed and
    unknown; the file is there and cannot be read; the file is read and
    cannot be parsed. *)
Theorem Load_failures (h : config.Host) (configPath : string) (err : config.LoadError) :
  config.Load h configPath = inr err <->
  (exists cause,
      configPath = "" /\ config.UserHomeDir h = inr cause /\
      err = config.HomeDirError cause)
  \/ (exists path cause,
         config.resolvePath h configPath = inl path /\
         config.ReadFile h path = inr cause /\
         config.IsNotExist cause = false /\
         err = config.ReadError cause)
  \/ (exists path data cause,
         config.resolvePath h configPath = inl path /\
         config.ReadFile h path = inl data /\
         config.Unmarshal h data = inr cause /\
         err = config.ParseError cause).
Proof.
  unfold config.Load. split.
  - destruct (config.resolvePath h configPath) as [path|e] eqn:Hp.
    + destruct (config.ReadFile h path) as [data|fe] eqn:Hr.
      * destruct (config.Unmarshal h data) as [c|cause] eqn:Hu; [discriminate|].
        intros H. right; right. exists path, data, cause. repeat split; congruence.
      * destruct (config.IsNotExist fe) eqn:He; [discriminate|].
        intros H. right; left. exists path, fe. repeat split; congruence.
    + intros H. left. unfold config.resolvePath in Hp.
      destruct (String.eqb configPath "") eqn:E; [|discriminate].
      apply String.eqb_eq in E.
      destruct (config.UserHomeDir h) as [|cause]; [discriminate|].
      exists cause. repeat split; congruence.
  - intros [(cause & -> & Hh & ->)|[(path & cause & Hp & Hr & He & ->)
                                   |(path & data & cause & Hp & Hr & Hu & ->)]].
    + unfold config.resolvePath. simpl. now rewrite Hh.
    + now rewrite Hp, Hr, He.
    + now rewrite Hp, Hr, Hu.
Qed.

(** * More on the pod name *)

Section PodNames.
Import gostrings.

Lemma append_inv_head (p a b : string) : p ++ a = p ++ b -> a = b.
Proof.
  induction p as [|c p IH]; [now rewrite !append_nil|].
  rewrite !append_cons. intros H. injection H as H. now apply IH.
Qed.

Lemma append_inv_length (a b s t : string) :
  String.length a = String.length b -> a ++ s = b ++ t -> a = b.
Proof.
  revert b. induction a as [|x a IH]; intros [|y b] Hlen H; try discriminate.
  - reflexivity.
  - rewrite !append_cons in H. injection H as -> H. f_equal.
    apply IH; [now injection Hlen|assumption].
Qed.

(** The length of a joined text: that of the pieces put together, and a
    separator between any two. *)
Lemma Join_length (parts : list string) (sep : string) :
  String.length (Join parts sep)
  = String.length (Join parts "") + (List.length parts - 1) * String.length sep.
Proof.
  induction parts as [|p [|q rest] IH]; [reflexivity|simpl; lia|].
  rewrite !Join_cons, !length_append, IH. simpl. lia.
Qed.

(** Joining two or more pieces by one text or another gives the same
    result for the same text only. *)
Lemma Join_inj (p q : string) (rest : list string) (a b : string) :
  Join (p :: q :: rest) a = Join (p :: q :: rest) b -> a = b.
Proof.
  intros H.
  assert (Hlen : String.length a = String.length b).
  { apply (f_equal String.length) in H. rewrite (Join_length _ a), (Join_length _ b) in H. simpl in H. nia. }
  rewrite !Join_cons in H. apply append_inv_head in H.
  eapply append_inv_length; eassumption.
Qed.

End PodNames.

(** A template without the placeholder names the same pod for every node:
    the pod name is the template itself. *)
Theorem podName_without_placeholder (cfg : config.Config) (node : string) :
  gostrings.Contains (config.PodName cfg) "{node}" = false ->
  nodeshell.podName (nodeshell.newShell node cfg) = config.PodName cfg.
Proof.
  intros H. apply (ReplaceAll_Join [config.PodName cfg] node).
  now repeat constructor.
Qed.

Lemma podName_without_placeholder_witness :
  nodeshell.podName (nodeshell.newShell "node-a" examples.fixedName) = "shell".
Proof. exact (podName_without_placeholder examples.fixedName "node-a" eq_refl). Defined.

(** A template with the placeholder names different pods for different
    nodes. *)
Theorem podName_injective (cfg : config.Config) (a b : string) :
  gostrings.Contains (config.PodName cfg) "{node}" = true ->
  nodeshell.podName (nodeshell.newShell a cfg) = nodeshell.podName (nodeshell.newShell b cfg) ->
  a = b.
Proof.
  intros Hin Heq.
  destruct (Join_exists (config.PodName cfg)) as (parts & Hcut & Hparts).
  change (gostrings.ReplaceAll (config.PodName cfg) nodeshell.placeholder a
          = gostrings.ReplaceAll (config.PodName cfg) nodeshell.placeholder b) in Heq.
  change "{node}" with nodeshell.placeholder in Hin.
  rewrite Hcut in Heq, Hin.
  rewrite !ReplaceAll_Join in Heq by assumption.
  destruct parts as [|p [|q rest]].
  - discriminate.
  - inversion Hparts; subst. simpl in Hin. congruence.
  - eapply Join_inj; eassumption.
Qed.

Lemma podName_injective_witness : "node-a" = "node-a".
Proof. exact (podName_injective config.Default "node-a" "node-a" eq_refl eq_refl). Defined.

(** * More on the start of a session *)

Section StartFacts.
Import k8s world nodeshell observe marks.
Local Open Scope list_scope.

Lemma teardown_rounds (n : NodeShell) (replies : list Reply) :
  List.filter isTeardown (flat_map (pollRound n) replies) = [].
Proof. induction replies as [|r replies IH]; [reflexivity|exact IH]. Qed.

(** The polling phase ends with success, with the timeout, or with the
    error of a poll that is not "not found". *)
Lemma waitStartup_result (n : NodeShell) (sched : list SelectCase) (w : World) :
  fst (waitStartup n sched w) = Blocked
  \/ fst (waitStartup n sched w) = Returned None
  \/ fst (waitStartup n sched w) = Returned (Some StartupTimeout)
  \/ exists cause,
       IsNotFound cause = false /\
       fst (waitStartup n sched w) = Returned (Some (GetPodError cause)).
Proof.
  destruct (waitStartup_outcome n sched w) as (replies & final & _ & _ & Hend).
  destruct Hend as [(H & _)|[(? & H & _)|[(? & ? & H & _)|(? & cause & H & Hc & _)]]];
    eauto 6.
Qed.

Lemma waitStartup_no_teardown (n : NodeShell) (sched : list SelectCase) (w : World) :
  exists new,
    trace (snd (waitStartup n sched w)) = trace w ++ new /\
    List.filter isTeardown new = [].
Proof.
  destruct (waitStartup_outcome n sched w) as (replies & final & _ & Htr & Hend).
  eexists. split; [exact Htr|].
  rewrite !List.filter_app, teardown_rounds. simpl.
  destruct Hend as [(_ & _ & ->)|[(rest & _ & _ & ->)|[(rest & pod & _ & _ & _ & ->)
                                                      |(rest & cause & _ & _ & _ & ->)]]];
    reflexivity.
Qed.

Lemma start_no_teardown (n : NodeShell) (sched : list SelectCase) (w : World) :
  exists new,
    trace (snd (start n sched w)) = trace w ++ new /\
    List.filter isTeardown new = [].
Proof.
  unfold start.
  pose proof (getNode_trace (node n) w) as H1.
  destruct (getNode _ w) as [[err|] w1]; simpl in H1.
  { destruct (IsNotFound err); simpl; rewrite H1; eexists; split; eauto. }
  pose proof (getNamespace_trace (config.PodNamespace (config n)) w1) as H2.
  destruct (getNamespace _ w1) as [[err|] w2]; simpl in H2; rewrite H1 in H2.
  { destruct (IsNotFound err); simpl; rewrite H2, <- app_assoc; eexists; split; eauto. }
  pose proof (getPod_trace (config.PodNamespace (config n)) (podName n) w2) as H3.
  destruct (getPod _ _ w2) as [[pod|err] w3]; simpl in H3; rewrite H2 in H3.
  - destruct (String.eqb (Phase (Status pod)) PodRunning).
    + simpl. rewrite H3, <- !app_assoc. eexists; split; eauto.
    + destruct (waitStartup_no_teardown n sched w3) as (new & Htr & Hnone).
      rewrite Htr, H3, <- !app_assoc. eexists; split; [reflexivity|exact Hnone].
  - destruct (IsNotFound err); simpl.
    2:{ rewrite H3, <- !app_assoc. eexists; split; eauto. }
    pose proof (createPod_trace (config.PodNamespace (config n)) (buildPod n) w3) as H4.
    destruct (createPod _ _ w3) as [[pod|err'] w4]; simpl in H4; rewrite H3 in H4.
    + destruct (waitStartup_no_teardown n sched w4) as (new & Htr & Hnone).
      rewrite Htr, H4, <- !app_assoc. eexists; split; [reflexivity|exact Hnone].
    + simpl. rewrite H4, <- !app_assoc. eexists; split; eauto.
Qed.

Lemma New_world (node : string) (cfg : config.Config) (sched : list SelectCase) (w : World) :
  snd (New node cfg sched w) = snd (start (newShell node cfg) sched w).
Proof.
  unfold New. now destruct (start _ sched w) as [[[err|]|] w1].
Qed.

Lemma New_no_teardown (node : string) (cfg : config.Config)
      (sched : list SelectCase) (w : World) :
  exists new,
    trace (snd (New node cfg sched w)) = trace w ++ new /\
    List.filter isTeardown new = [].
Proof. rewrite New_world. apply start_no_teardown. Qed.

End StartFacts.

(** [start] never tears anything down: among its effects there is no delete
    call, no delay and no warning, however it ends. *)
Theorem start_never_tears_down
        (n : nodeshell.NodeShell) (sched : list world.SelectCase) (w : world.World) :
  exists new,
    world.trace (snd (nodeshell.start n sched w)) = (world.trace w ++ new)%list /\
    List.filter observe.isDelete new = [] /\
    List.filter observe.isSleep new = [] /\
    List.filter observe.isPrint new = [].
Proof.
  destruct (start_no_teardown n sched w) as (new & Htr & Hnone).
  exists new. split; [exact Htr|].
  clear Htr. induction new as [|e new IH]; [repeat split|].
  simpl in Hnone. unfold marks.isTeardown in Hnone at 1.
  destruct (observe.isDelete e) eqn:E1, (observe.isSleep e) eqn:E2,
           (observe.isPrint e) eqn:E3; simpl in Hnone; try discriminate.
  simpl. rewrite E1, E2, E3. now apply IH.
Qed.

(** A session that [New] returns has its pod in the cluster, running, at
    the moment [New] returns. *)
Theorem New_session_is_running
        (node : string) (cfg : config.Config) (sched : list world.SelectCase)
        (w w' : world.World) (ns : nodeshell.NodeShell) :
  nodeshell.New node cfg sched w = (world.Returned (inl ns), w') ->
  exists pod,
    k8s.pods (world.cluster w')
      !! (config.PodNamespace cfg, nodeshell.podName ns) = Some pod /\
    k8s.Phase (k8s.Status pod) = k8s.PodRunning.
Proof.
  intros H. pose proof (New_session _ _ _ _ _ _ H) as ->.
  unfold nodeshell.New in H.
  destruct (nodeshell.start _ sched w) as [[[err|]|] w1] eqn:Hs; inversion H; subst.
  exact (start_success _ _ _ _ Hs).
Qed.

Lemma New_session_is_running_witness :
  exists pod,
    k8s.pods (world.cluster
                (snd (nodeshell.New "node-a" config.Default [world.TimeoutCase]
                        examples.servedWorld)))
      !! ("kube-system", "node-shell-node-a") = Some pod /\
    k8s.Phase (k8s.Status pod) = k8s.PodRunning.
Proof.
  exact (New_session_is_running "node-a" config.Default [world.TimeoutCase]
           examples.servedWorld
           (snd (nodeshell.New "node-a" config.Default [world.TimeoutCase]
                   examples.servedWorld))
           examples.shellA eq_refl).
Defined.

Section StartPaths.
Import k8s world nodeshell observe marks.
Local Open Scope list_scope.

Lemma IsNotFound_eq (err : StatusError) : IsNotFound err = true -> err = NotFound.
Proof. now destruct err. Qed.

Lemma getNode_calm_found (name : string) (w : World) :
  Forall calm (script w) ->
  name ∈ nodes (cluster w) ->
  getNode name w
  = (None, mkWorld (cluster w) (tl (script w)) (trace w ++ [ECall (GetNode name) ReplyOk])).
Proof.
  intros H Hin. unfold getNode. rewrite (envMove_calm w H).
  now rewrite bool_decide_eq_true_2.
Qed.

Lemma getNamespace_calm_found (name : string) (w : World) :
  Forall calm (script w) ->
  name ∈ namespaces (cluster w) ->
  getNamespace name w
  = (None, mkWorld (cluster w) (tl (script w))
             (trace w ++ [ECall (GetNamespace name) ReplyOk])).
Proof.
  intros H Hin. unfold getNamespace. rewrite (envMove_calm w H).
  now rewrite bool_decide_eq_true_2.
Qed.

End StartPaths.

(** What an error of [start] tells about the run.  An error of the node
    lookup means that lookup was the only call; one of the namespace lookup
    means the two lookups were the only calls; a create error means the node
    and the namespace were found, the pod was not, and the create call was
    the last call.  An error of the pod lookup is never "not found", and
    [start] never returns a delete error. *)
Theorem start_error_trace
        (n : nodeshell.NodeShell) (sched : list world.SelectCase) (w : world.World)
        (err : nodeshell.Error) :
  fst (nodeshell.start n sched w) = world.Returned (Some err) ->
  let ns := config.PodNamespace (nodeshell.config n) in
  let new := world.trace (snd (nodeshell.start n sched w)) in
  match err with
  | nodeshell.NodeNotFound x =>
      x = nodeshell.node n /\
      new = (world.trace w
               ++ [world.ECall (k8s.GetNode x) (k8s.ReplyErr k8s.NotFound)])%list
  | nodeshell.GetNodeError x cause =>
      x = nodeshell.node n /\ k8s.IsNotFound cause = false /\
      new = (world.trace w ++ [world.ECall (k8s.GetNode x) (k8s.ReplyErr cause)])%list
  | nodeshell.NamespaceNotFound x =>
      x = ns /\
      new = (world.trace w
               ++ [world.ECall (k8s.GetNode (nodeshell.node n)) k8s.ReplyOk;
                   world.ECall (k8s.GetNamespace x) (k8s.ReplyErr k8s.NotFound)])%list
  | nodeshell.GetNamespaceError x cause =>
      x = ns /\ k8s.IsNotFound cause = false /\
      new = (world.trace w
               ++ [world.ECall (k8s.GetNode (nodeshell.node n)) k8s.ReplyOk;
                   world.ECall (k8s.GetNamespace x) (k8s.ReplyErr cause)])%list
  | nodeshell.CreatePodError cause =>
      new = (world.trace w
               ++ [world.ECall (k8s.GetNode (nodeshell.node n)) k8s.ReplyOk;
                   world.ECall (k8s.GetNamespace ns) k8s.ReplyOk;
                   world.ECall (k8s.GetPod ns (nodeshell.podName n))
                     (k8s.ReplyErr k8s.NotFound);
                   world.ECall (k8s.CreatePod ns (nodeshell.buildPod n))
                     (k8s.ReplyErr cause)])%list
  | nodeshell.GetPodError cause => k8s.IsNotFound cause = false
  | nodeshell.StartupTimeout => True
  | nodeshell.DeletePodError _ => False
  end.
Proof.
  unfold nodeshell.start.
  pose proof (getNode_trace (nodeshell.node n) w) as H1.
  destruct (world.getNode _ w) as [[e1|] w1]; simpl in H1.
  { destruct (k8s.IsNotFound e1) eqn:E; simpl; intros H; inversion H; subst; simpl.
    - apply IsNotFound_eq in E. subst. auto.
    - auto. }
  pose proof (getNamespace_trace (config.PodNamespace (nodeshell.config n)) w1) as H2.
  destruct (world.getNamespace _ w1) as [[e2|] w2]; simpl in H2; rewrite H1 in H2.
  { destruct (k8s.IsNotFound e2) eqn:E; simpl; intros H; inversion H; subst; simpl;
      rewrite H2, <- app_assoc.
    - apply IsNotFound_eq in E. subst. auto.
    - auto. }
  pose proof (getPod_trace (config.PodNamespace (nodeshell.config n))
                (nodeshell.podName n) w2) as H3.
  destruct (world.getPod _ _ w2) as [[pod|e3] w3]; simpl in H3; rewrite H2 in H3.
  - destruct (String.eqb _ _); [discriminate|].
    destruct (waitStartup_result n sched w3) as [H|[H|[H|(cause & Hc & H)]]];
      rewrite H; intros Heq; inversion Heq; subst; simpl; auto.
  - destruct (k8s.IsNotFound e3) eqn:E; simpl.
    2:{ intros H; inversion H; subst. exact E. }
    apply IsNotFound_eq in E. subst e3.
    pose proof (createPod_trace (config.PodNamespace (nodeshell.config n))
                  (nodeshell.buildPod n) w3) as H4.
    destruct (world.createPod _ _ w3) as [[pod|e4] w4]; simpl in H4; rewrite H3 in H4.
    + destruct (waitStartup_result n sched w4) as [H|[H|[H|(cause & Hc & H)]]];
        rewrite H; intros Heq; inversion Heq; subst; simpl; auto.
    + intros H; inversion H; subst. simpl. rewrite H4, <- !app_assoc. reflexivity.
Qed.

Lemma start_error_trace_witness :
  world.trace (snd (nodeshell.start examples.shellB [world.TimeoutCase] examples.staleWorld))
  = [world.ECall (k8s.GetNode "node-b") (k8s.ReplyErr k8s.NotFound)].
Proof.
  exact (proj2 (start_error_trace examples.shellB [world.TimeoutCase] examples.staleWorld
                  (nodeshell.NodeNotFound "node-b") eq_refl)).
Defined.

(** A pod that is found in another phase than "Running" is not created
    again but polled: after the three lookups [start] goes on as the polling
    phase does, with the ticker, the timer and the rounds of polls, ends as
    the polling phase ends, makes no create call and returns no create
    error. *)
Theorem start_keeps_existing_pod
        (n : nodeshell.NodeShell) (sched : list world.SelectCase)
        (w w1 w2 w3 : world.World) (pod : k8s.Pod) :
  world.getNode (nodeshell.node n) w = (None, w1) ->
  world.getNamespace (config.PodNamespace (nodeshell.config n)) w1 = (None, w2) ->
  world.getPod (config.PodNamespace (nodeshell.config n)) (nodeshell.podName n) w2
  = (inl pod, w3) ->
  k8s.Phase (k8s.Status pod) <> k8s.PodRunning ->
  nodeshell.start n sched w = nodeshell.waitStartup n sched w3 /\
  (exists replies final,
      Forall (fun r => observe.retried r = true) replies /\
      world.trace (snd (nodeshell.start n sched w))
      = (world.trace w
           ++ [world.ECall (k8s.GetNode (nodeshell.node n)) k8s.ReplyOk;
               world.ECall (k8s.GetNamespace (config.PodNamespace (nodeshell.config n)))
                 k8s.ReplyOk;
               world.ECall
                 (k8s.GetPod (config.PodNamespace (nodeshell.config n)) (nodeshell.podName n))
                 (k8s.ReplyPod pod);
               world.ENewTicker 1000000000;
               world.ENewTimer 60000000000]
           ++ flat_map (observe.pollRound n) replies ++ final)%list /\
      observe.pollEnd n sched (List.length replies) (fst (nodeshell.start n sched w)) final) /\
  (exists new,
      world.trace (snd (nodeshell.start n sched w)) = (world.trace w ++ new)%list /\
      observe.createdPods new = []) /\
  (forall cause,
      fst (nodeshell.start n sched w)
      <> world.Returned (Some (nodeshell.CreatePodError cause))).
Proof.
  intros H1 H2 H3 Hphase.
  assert (E : String.eqb (k8s.Phase (k8s.Status pod)) k8s.PodRunning = false).
  { destruct (String.eqb _ _) eqn:E; [|reflexivity]. now apply String.eqb_eq in E. }
  assert (Hs : nodeshell.start n sched w = nodeshell.waitStartup n sched w3).
  { unfold nodeshell.start. now rewrite H1, H2, H3, E. }
  pose proof (getNode_trace (nodeshell.node n) w) as T1.
  pose proof (getNamespace_trace (config.PodNamespace (nodeshell.config n)) w1) as T2.
  pose proof (getPod_trace (config.PodNamespace (nodeshell.config n))
                (nodeshell.podName n) w2) as T3.
  rewrite H1 in T1. rewrite H2 in T2. rewrite H3 in T3. simpl in T1, T2, T3.
  split; [exact Hs|]. rewrite Hs. split; [|split].
  - destruct (waitStartup_outcome n sched w3) as (replies & final & Hr & Htr & Hend).
    exists replies, final. split; [exact Hr|]. split; [|exact Hend].
    rewrite Htr, T3, T2, T1, <- !app_assoc. reflexivity.
  - destruct (waitStartup_no_create n sched w3) as (new & Htr & Hnone).
    rewrite Htr, T3, T2, T1, <- !app_assoc. eexists. split; [reflexivity|].
    simpl. exact Hnone.
  - intros cause.
    destruct (waitStartup_result n sched w3) as [H|[H|[H|(c & _ & H)]]];
      rewrite H; discriminate.
Qed.

Lemma start_keeps_existing_pod_witness :
  nodeshell.start examples.shellA [world.TickCase; world.TimeoutCase] scenarios.pendingWorld
  = nodeshell.waitStartup examples.shellA [world.TickCase; world.TimeoutCase]
      (snd (world.getPod "kube-system" "node-shell-node-a"
              (snd (world.getNamespace "kube-system"
                      (snd (world.getNode "node-a" scenarios.pendingWorld)))))).
Proof.
  pose (w1 := snd (world.getNode "node-a" scenarios.pendingWorld)).
  pose (w2 := snd (world.getNamespace "kube-system" w1)).
  pose (w3 := snd (world.getPod "kube-system" "node-shell-node-a" w2)).
  apply (proj1 (start_keeps_existing_pod examples.shellA
                  [world.TickCase; world.TimeoutCase] scenarios.pendingWorld w1 w2 w3
                  (marks.pending (nodeshell.buildPod examples.shellA))
                  eq_refl eq_refl eq_refl ltac:(discriminate))).
Defined.

Section StartTimeout.
Import k8s world nodeshell observe marks.
Local Open Scope list_scope.

(** The effects of the first [k] polls. *)
Lemma pollWorld_trace (n : NodeShell) (w : World) (k : nat) :
  trace (polling.pollWorld n w k)
  = trace w
      ++ flat_map (pollRound n)
           (map (fun i => replyOfPod (polling.pollReply n w i)) (seq 0 k)).
Proof.
  induction k as [|k IH]; [simpl; now rewrite app_nil_r|].
  rewrite seq_S, map_app, flat_map_app. simpl.
  change (polling.pollWorld n w (S k))
    with (snd (getPod (config.PodNamespace (config n)) (podName n)
                 (emit [ERecv TickCase] (polling.pollWorld n w k)))).
  rewrite getPod_trace. simpl. rewrite IH, <- !app_assoc. reflexivity.
Qed.

(** A pod that a poll found is in the cluster that the poll leaves. *)
Lemma pollWorld_found (n : NodeShell) (w : World) (k : nat) (pod : Pod) :
  polling.pollReply n w k = inl pod ->
  pods (cluster (polling.pollWorld n w (S k)))
    !! (config.PodNamespace (config n), podName n) = Some pod.
Proof.
  unfold polling.pollReply. intros H.
  change (polling.pollWorld n w (S k))
    with (snd (getPod (config.PodNamespace (config n)) (podName n)
                 (emit [ERecv TickCase] (polling.pollWorld n w k)))).
  destruct (getPod _ _ (emit [ERecv TickCase] (polling.pollWorld n w k)))
    as [r w'] eqn:E. simpl in H. subst r.
  exact (getPod_found _ _ _ _ _ E).
Qed.

End StartTimeout.

(** A pod that never comes up is left behind.  When the node and the
    namespace are found, the pod is not, the create call is answered with
    the pod as it is stored, and each of the [k] polls before the timer is
    answered "not found" or by a pod that is not running, [start] returns
    the startup timeout; its effects are the three lookups, the one create
    call, the ticker, the timer, the [k] polls and the receive from the
    timer, so no delete call; and a pod that the last poll found is in the
    cluster when [start] returns. *)
Theorem start_timeout_leaves_pod
        (n : nodeshell.NodeShell) (k : nat) (rest : list world.SelectCase)
        (w w1 w2 w3 w4 : world.World) (err : k8s.StatusError) (stored : k8s.Pod) :
  world.getNode (nodeshell.node n) w = (None, w1) ->
  world.getNamespace (config.PodNamespace (nodeshell.config n)) w1 = (None, w2) ->
  world.getPod (config.PodNamespace (nodeshell.config n)) (nodeshell.podName n) w2
  = (inr err, w3) ->
  k8s.IsNotFound err = true ->
  world.createPod (config.PodNamespace (nodeshell.config n)) (nodeshell.buildPod n) w3
  = (inl stored, w4) ->
  let ns := config.PodNamespace (nodeshell.config n) in
  let w5 := world.emit [world.ENewTicker 1000000000; world.ENewTimer 60000000000] w4 in
  (forall i, i < k ->
             observe.retried (world.replyOfPod (polling.pollReply n w5 i)) = true) ->
  let w' := world.emit [world.ERecv world.TimeoutCase] (polling.pollWorld n w5 k) in
  nodeshell.start n (repeat world.TickCase k ++ world.TimeoutCase :: rest)%list w
  = (world.Returned (Some nodeshell.StartupTimeout), w') /\
  world.trace w'
  = (world.trace w
       ++ [world.ECall (k8s.GetNode (nodeshell.node n)) k8s.ReplyOk;
           world.ECall (k8s.GetNamespace ns) k8s.ReplyOk;
           world.ECall (k8s.GetPod ns (nodeshell.podName n)) (k8s.ReplyErr k8s.NotFound);
           world.ECall (k8s.CreatePod ns (nodeshell.buildPod n)) (k8s.ReplyPod stored);
           world.ENewTicker 1000000000;
           world.ENewTimer 60000000000]
       ++ flat_map (observe.pollRound n)
            (map (fun i => world.replyOfPod (polling.pollReply n w5 i)) (seq 0 k))
       ++ [world.ERecv world.TimeoutCase])%list /\
  (forall j pod,
      k = S j ->
      polling.pollReply n w5 j = inl pod ->
      k8s.pods (world.cluster w') !! (ns, nodeshell.podName n) = Some pod).
Proof.
  intros H1 H2 H3 He H4 ns w5 Hr w'.
  apply IsNotFound_eq in He. subst err.
  pose proof (getNode_trace (nodeshell.node n) w) as T1.
  pose proof (getNamespace_trace (config.PodNamespace (nodeshell.config n)) w1) as T2.
  pose proof (getPod_trace (config.PodNamespace (nodeshell.config n))
                (nodeshell.podName n) w2) as T3.
  pose proof (createPod_trace (config.PodNamespace (nodeshell.config n))
                (nodeshell.buildPod n) w3) as T4.
  rewrite H1 in T1. rewrite H2 in T2. rewrite H3 in T3. rewrite H4 in T4.
  simpl in T1, T2, T3, T4.
  split; [|split].
  - unfold nodeshell.start. rewrite H1, H2, H3. simpl. rewrite H4.
    exact (proj1 (waitStartup_forward n k rest w4 Hr)).
  - unfold w'. simpl. rewrite pollWorld_trace. unfold w5. simpl.
    rewrite T4, T3, T2, T1, <- !app_assoc. reflexivity.
  - intros j pod -> Hp. unfold w'. simpl. exact (pollWorld_found n w5 j pod Hp).
Qed.

Lemma start_timeout_leaves_pod_witness :
  fst (nodeshell.start examples.shellA [world.TickCase; world.TickCase; world.TimeoutCase]
         examples.goneWorld)
  = world.Returned (Some nodeshell.StartupTimeout).
Proof.
  pose (w1 := snd (world.getNode "node-a" examples.goneWorld)).
  pose (w2 := snd (world.getNamespace "kube-system" w1)).
  pose (w3 := snd (world.getPod "kube-system" "node-shell-node-a" w2)).
  pose (w4 := snd (world.createPod "kube-system" (nodeshell.buildPod examples.shellA) w3)).
  refine (f_equal fst
            (proj1 (start_timeout_leaves_pod examples.shellA 2 [] examples.goneWorld
                      w1 w2 w3 w4 k8s.NotFound
                      (marks.pending (nodeshell.buildPod examples.shellA))
                      eq_refl eq_refl eq_refl eq_refl eq_refl _))).
  intros i Hi.
  destruct i as [|[|i]]; [vm_compute; reflexivity|vm_compute; reflexivity|lia].
Defined.

(** * More on teardown *)

Section CloseFacts.
Import k8s world nodeshell observe marks.
Local Open Scope list_scope.

Lemma no_teardown_split (t : list Effect) :
  List.filter isTeardown t = [] ->
  List.filter isDelete t = [] /\ List.filter isSleep t = [] /\ List.filter isPrint t = [].
Proof.
  induction t as [|e t IH]; [repeat split|].
  simpl. unfold isTeardown at 1.
  destruct (isDelete e), (isSleep e), (isPrint e); simpl; try discriminate. exact IH.
Qed.

Lemma Close_call (n : NodeShell) (w : World) :
  exists r,
    (r = ReplyOk \/ exists err, r = ReplyErr err) /\
    trace (snd (Close n w))
    = trace w ++ [ECall (DeletePod (config.PodNamespace (config n)) (podName n)) r] /\
    fst (Close n w) = closeResult r.
Proof.
  unfold Close.
  pose proof (deletePod_trace (config.PodNamespace (config n)) (podName n) w) as Ht.
  destruct (deletePod _ _ w) as [[err|] w1]; simpl in Ht.
  - exists (ReplyErr err). split; [eauto|].
    destruct (IsNotFound err) eqn:E; simpl; rewrite E; auto.
  - exists ReplyOk. auto.
Qed.

Lemma deletePod_calm (ns name : string) (w : World) :
  Forall calm (script w) ->
  deletePod ns name w
  = match pods (cluster w) !! (ns, name) with
    | Some _ =>
        (None,
         mkWorld (mkCluster (nodes (cluster w)) (namespaces (cluster w))
                    (delete (ns, name) (pods (cluster w))))
           (tl (script w)) (trace w ++ [ECall (DeletePod ns name) ReplyOk]))
    | None =>
        (Some NotFound,
         mkWorld (cluster w) (tl (script w))
           (trace w ++ [ECall (DeletePod ns name) (ReplyErr NotFound)]))
    end.
Proof.
  intros H. unfold deletePod. rewrite (envMove_calm w H).
  now destruct (pods (cluster w) !! (ns, name)).
Qed.

(** The loop of [RetryClose] from any world: failed attempts, each a call,
    a delay and a warning, as many as the loop has iterations, or fewer and
    then a call that is answered with success or "not found". *)
Lemma retryLoop_general (n : NodeShell) (togo : nat) :
  forall w,
    exists errs final,
      Forall (fun err => IsNotFound err = false) errs /\
      trace (retryLoop n togo w) = trace w ++ flat_map (failedAttempt n) errs ++ final /\
      ((List.length errs = togo /\ final = [])
       \/ (List.length errs < togo /\
           exists r,
             (r = ReplyOk \/ r = ReplyErr NotFound) /\
             final = [ECall (DeletePod (config.PodNamespace (config n)) (podName n)) r])).
Proof.
  induction togo as [|togo IH]; intros w.
  - exists [], []. simpl. rewrite app_nil_r. repeat split; auto.
  - rewrite retryLoop_S. unfold Close.
    pose proof (deletePod_trace (config.PodNamespace (config n)) (podName n) w) as Ht.
    destruct (deletePod _ _ w) as [[err|] w1]; simpl in Ht.
    + destruct (IsNotFound err) eqn:E.
      * apply IsNotFound_eq in E. subst err.
        exists [], [ECall (DeletePod (config.PodNamespace (config n)) (podName n))
                      (ReplyErr NotFound)].
        repeat split; [constructor|exact Ht|]. right. split; [simpl; lia|]. eauto.
      * destruct (IH (emit [ESleep closeRetryTime; EPrint (warning (DeletePodError err))] w1))
          as (errs & final & He & Htr & Hend).
        exists (err :: errs), final. split; [now constructor|]. split.
        -- rewrite Htr. simpl. rewrite Ht, <- !app_assoc. reflexivity.
        -- destruct Hend as [(Hl & ->)|(Hl & r & Hr & ->)]; [left|right]; simpl.
           ++ split; [lia|reflexivity].
           ++ split; [lia|]. eauto.
    + exists [], [ECall (DeletePod (config.PodNamespace (config n)) (podName n)) ReplyOk].
      repeat split; [constructor|exact Ht|]. right. split; [simpl; lia|]. eauto.
Qed.

End CloseFacts.

(** [RetryClose] from any world: between one and five delete calls.  Each
    failed call is followed by a delay of three seconds and a warning; the
    loop stops at the first call answered with success or "not found", or
    after the fifth failure.  It makes no other call. *)
Theorem RetryClose_at_most_five (n : nodeshell.NodeShell) (w : world.World) :
  exists errs final,
    Forall (fun err => k8s.IsNotFound err = false) errs /\
    world.trace (nodeshell.RetryClose n w)
    = (world.trace w ++ flat_map (observe.failedAttempt n) errs ++ final)%list /\
    ((List.length errs = 5 /\ final = [])
     \/ (List.length errs < 5 /\
         exists r,
           (r = k8s.ReplyOk \/ r = k8s.ReplyErr k8s.NotFound) /\
           final = [world.ECall
                      (k8s.DeletePod (config.PodNamespace (nodeshell.config n))
                         (nodeshell.podName n)) r])) /\
    1 <= List.length (List.filter observe.isDelete
                        (flat_map (observe.failedAttempt n) errs ++ final)) <= 5 /\
    List.length (List.filter observe.isSleep
                   (flat_map (observe.failedAttempt n) errs ++ final))
    = List.length errs.
Proof.
  destruct (retryLoop_general n nodeshell.closeMaxRetry w)
    as (errs & final & He & Htr & Hend).
  exists errs, final. split; [exact He|]. split; [exact Htr|]. split; [exact Hend|].
  destruct (failedAttempt_count n errs) as (C1 & C2 & _).
  rewrite !List.filter_app, !length_app, C1, C2.
  destruct Hend as [(Hl & ->)|(Hl & r & [->| ->] & ->)]; simpl;
    unfold nodeshell.closeMaxRetry in Hl; lia.
Qed.


(** * The command *)

Section Command.
Import k8s world nodeshell observe marks session cli.
Local Open Scope list_scope.

Lemma RetryClose_trace (n : NodeShell) (w : World) :
  exists extra,
    trace (RetryClose n w) = trace w ++ extra /\
    1 <= List.length (List.filter isDelete extra) <= 5.
Proof.
  destruct (retryLoop_general n closeMaxRetry w) as (errs & final & _ & Htr & Hend).
  eexists. split; [exact Htr|].
  destruct (failedAttempt_count n errs) as (C1 & _ & _).
  rewrite List.filter_app, length_app, C1.
  destruct Hend as [(Hl & ->)|(Hl & r & [->| ->] & ->)]; simpl;
    unfold closeMaxRetry in Hl; lia.
Qed.

End Command.

(** With [--kill] the command opens no session on the terminal, and after
    the start of the session it makes one delete call at most: no retry, no
    delay, no warning. *)
Theorem run_kill (o : cli.commandOptions) (m : cli.Machine)
        (sched : list world.SelectCase) (w : world.World) :
  cli.killPod o = true ->
  snd (cli.run o m sched w) = [] /\
  exists new,
    world.trace (snd (fst (cli.run o m sched w))) = (world.trace w ++ new)%list /\
    List.length (List.filter observe.isDelete new) <= 1 /\
    List.filter observe.isSleep new = [] /\
    List.filter observe.isPrint new = [].
Proof.
  intros Hkill. unfold cli.run.
  assert (Hnil : forall out : world.Returns (option cli.Failure),
             snd (out, w, @nil session.TermEffect) = [] /\
             exists new,
               world.trace (snd (fst (out, w, @nil session.TermEffect)))
               = (world.trace w ++ new)%list /\
               List.length (List.filter observe.isDelete new) <= 1 /\
               List.filter observe.isSleep new = [] /\
               List.filter observe.isPrint new = []).
  { intros out. split; [reflexivity|]. exists []. simpl. rewrite app_nil_r. auto. }
  destruct (cli.initKubeClient o m) as [kc|]; [|apply Hnil].
  destruct (cli.ensureNode o m) as [o'|] eqn:En; [|apply Hnil].
  assert (Hkill' : cli.killPod o' = true).
  { unfold cli.ensureNode in En. destruct (negb _); [congruence|].
    destruct (cli.ListNodes m) as [l|]; [|discriminate].
    destruct (Nat.eqb _ _); [discriminate|].
    destruct (cli.Prompt m l); inversion En; subst. exact Hkill. }
  destruct (config.Load _ _) as [cfg|]; [|apply Hnil].
  destruct (New_no_teardown (cli.nodeName o') cfg sched w) as (new & Htr & Hnone).
  apply no_teardown_split in Hnone. destruct Hnone as (Hd & Hs & Hp).
  destruct (nodeshell.New _ cfg sched w) as [[[ns|err]|] w1]; simpl in Htr.
  - rewrite Hkill'.
    destruct (Close_call ns w1) as (r & Hr & Hct & _).
    assert (Hw : forall (out1 : nodeshell.Error -> world.Returns (option cli.Failure))
                      (out2 : world.Returns (option cli.Failure)),
               snd (fst (match nodeshell.Close ns w1 with
                         | (Some err, w2) => (out1 err, w2, @nil session.TermEffect)
                         | (None, w2) => (out2, w2, [])
                         end)) = snd (nodeshell.Close ns w1)
               /\ snd (match nodeshell.Close ns w1 with
                       | (Some err, w2) => (out1 err, w2, @nil session.TermEffect)
                       | (None, w2) => (out2, w2, [])
                       end) = []).
    { intros. now destruct (nodeshell.Close ns w1) as [[?|] ?]. }
    destruct (Hw (fun err => world.Returned (Some (cli.ShellFailed err)))
                 (world.Returned None)) as (-> & ->).
    split; [reflexivity|].
    eexists. split; [rewrite Hct, Htr, <- app_assoc; reflexivity|].
    rewrite !List.filter_app, length_app, Hd, Hs, Hp.
    destruct Hr as [->|[err ->]]; simpl; auto.
  - split; [reflexivity|]. exists new. simpl. rewrite Hd, Hs, Hp. auto.
  - split; [reflexivity|]. exists new. simpl. rewrite Hd, Hs, Hp. auto.
Qed.

Lemma run_kill_witness :
  snd (cli.run scenarios.killA scenarios.desk [world.TimeoutCase] examples.servedWorld) = [].
Proof.
  exact (proj1 (run_kill scenarios.killA scenarios.desk [world.TimeoutCase]
                  examples.servedWorld eq_refl)).
Defined.

Section CommandFacts.
Import k8s world nodeshell observe marks session cli.
Local Open Scope list_scope.

(** [ensureNode] changes the node name only. *)
Lemma ensureNode_flags (o o' : commandOptions) (m : Machine) :
  ensureNode o m = inl o' ->
  keepPod o' = keepPod o /\ killPod o' = killPod o /\ configPath o' = configPath o.
Proof.
  unfold ensureNode. destruct (negb _); [intros H; inversion H; auto|].
  destruct (ListNodes m) as [l|]; [|discriminate].
  destruct (Nat.eqb _ _); [discriminate|].
  destruct (Prompt m l); intros H; inversion H; subst. auto.
Qed.

End CommandFacts.

(** With [--keep], and without [--kill], the command tears nothing down: it
    makes no delete call, however the session ends. *)
Theorem run_keep (o : cli.commandOptions) (m : cli.Machine)
        (sched : list world.SelectCase) (w : world.World) :
  cli.keepPod o = true ->
  cli.killPod o = false ->
  exists new,
    world.trace (snd (fst (cli.run o m sched w))) = (world.trace w ++ new)%list /\
    List.filter observe.isDelete new = [] /\
    List.filter observe.isSleep new = [] /\
    List.filter observe.isPrint new = [].
Proof.
  intros Hkeep Hkill. unfold cli.run.
  assert (Hnil : exists new,
             world.trace w = (world.trace w ++ new)%list /\
             List.filter observe.isDelete new = [] /\
             List.filter observe.isSleep new = [] /\
             List.filter observe.isPrint new = []).
  { exists []. rewrite app_nil_r. auto. }
  destruct (cli.initKubeClient o m) as [kc|]; [|exact Hnil].
  destruct (cli.ensureNode o m) as [o'|] eqn:En; [|exact Hnil].
  destruct (ensureNode_flags o o' m En) as (Hk1 & Hk2 & _).
  destruct (config.Load _ _) as [cfg|]; [|exact Hnil].
  destruct (New_no_teardown (cli.nodeName o') cfg sched w) as (new & Htr & Hnone).
  apply no_teardown_split in Hnone.
  destruct (nodeshell.New _ cfg sched w) as [[[ns|err]|] w1]; simpl in Htr;
    try (exists new; split; [exact Htr|exact Hnone]).
  rewrite Hk2, Hkill, Hk1, Hkeep. simpl.
  destruct (session.Run ns kc (cli.terminal m)) as [[r|] te]; simpl;
    exists new; split; assumption.
Qed.

Lemma run_keep_witness :
  exists new,
    world.trace
      (snd (fst (cli.run scenarios.keepA scenarios.desk [world.TimeoutCase]
                   examples.servedWorld)))
    = (world.trace examples.servedWorld ++ new)%list /\
    List.filter observe.isDelete new = [].
Proof.
  destruct (run_keep scenarios.keepA scenarios.desk [world.TimeoutCase]
              examples.servedWorld eq_refl eq_refl) as (new & Htr & Hd & _).
  exists new. split; assumption.
Defined.

(** Teardown does not change what the command returns.  Without [--kill],
    the command run with and without [--keep] returns the same and does the
    same to the terminal.  When the session started and the session on the
    terminal returned, the run with [--keep] leaves the world as [New] left
    it, and the run without leaves that world after [RetryClose] of the
    session's shell, whatever [RetryClose] met; in every other case the two
    runs leave the same world. *)
Theorem run_teardown_does_not_mask
        (node cp kp : string) (ins : bool) (m : cli.Machine)
        (sched : list world.SelectCase) (w : world.World) :
  let keep := cli.mkOptions node true false cp kp ins in
  let tear := cli.mkOptions node false false cp kp ins in
  let kept := cli.run keep m sched w in
  let torn := cli.run tear m sched w in
  fst (fst torn) = fst (fst kept) /\
  snd torn = snd kept /\
  (forall kc o' cfg ns w1 r effects,
      cli.initKubeClient tear m = inl kc ->
      cli.ensureNode tear m = inl o' ->
      config.Load (cli.host m) cp = inl cfg ->
      nodeshell.New (cli.nodeName o') cfg sched w = (world.Returned (inl ns), w1) ->
      session.Run ns kc (cli.terminal m) = (world.Returned r, effects) ->
      kept = (world.Returned (option_map cli.SessionFailed r), w1, effects) /\
      torn = (world.Returned (option_map cli.SessionFailed r),
              nodeshell.RetryClose ns w1, effects)) /\
  (snd (fst torn) = snd (fst kept)
   \/ exists kc o' cfg ns w1 r effects,
        cli.initKubeClient tear m = inl kc /\
        cli.ensureNode tear m = inl o' /\
        config.Load (cli.host m) cp = inl cfg /\
        nodeshell.New (cli.nodeName o') cfg sched w = (world.Returned (inl ns), w1) /\
        session.Run ns kc (cli.terminal m) = (world.Returned r, effects) /\
        snd (fst torn) = nodeshell.RetryClose ns w1).
Proof.
  intros keep tear kept torn.
  assert (Hinit : cli.initKubeClient keep m = cli.initKubeClient tear m) by reflexivity.
  assert (Hnode : cli.ensureNode keep m
                  = match cli.ensureNode tear m with
                    | inl o' => inl (cli.mkOptions (cli.nodeName o') true false cp kp ins)
                    | inr e => inr e
                    end).
  { unfold cli.ensureNode, keep, tear. simpl.
    destruct (negb (String.eqb node "")); [reflexivity|].
    destruct (cli.ListNodes m) as [l|]; [|reflexivity].
    destruct (Nat.eqb _ _); [reflexivity|]. now destruct (cli.Prompt m l). }
  assert (Hflags : forall o', cli.ensureNode tear m = inl o' ->
                     cli.keepPod o' = false /\ cli.killPod o' = false
                     /\ cli.configPath o' = cp).
  { intros o' H. apply ensureNode_flags in H. exact H. }
  unfold kept, torn, cli.run. rewrite Hinit, Hnode.
  destruct (cli.initKubeClient tear m) as [kc|e] eqn:Hk;
    [|repeat split; try discriminate; now left].
  destruct (cli.ensureNode tear m) as [o'|e] eqn:Ho;
    [|repeat split; try discriminate; now left].
  destruct (Hflags o' eq_refl) as (Hkeep & Hkill & Hcp).
  cbn [cli.configPath cli.nodeName cli.killPod cli.keepPod]. rewrite Hcp, Hkill, Hkeep.
  destruct (config.Load (cli.host m) cp) as [cfg|e] eqn:Hc;
    [|repeat split; try discriminate; now left].
  destruct (nodeshell.New (cli.nodeName o') cfg sched w) as [[[ns|err]|] w1] eqn:HN.
  - destruct (session.Run ns kc (cli.terminal m)) as [[r|] te] eqn:HR; cbn.
    + split; [reflexivity|]. split; [reflexivity|]. split.
      * intros kc' o'' cfg' ns' w1' r' te' E1 E2 E3 E4 E5.
        inversion E1; inversion E2; inversion E3; subst.
        rewrite HN in E4. inversion E4; subst.
        rewrite HR in E5. inversion E5; subst. split; reflexivity.
      * right. exists kc, o', cfg, ns, w1, r, te. repeat split; assumption.
    + split; [reflexivity|]. split; [reflexivity|]. split; [|now left].
      intros kc' o'' cfg' ns' w1' r' te' E1 E2 E3 E4 E5.
      inversion E1; inversion E2; inversion E3; subst.
      rewrite HN in E4. inversion E4; subst.
      rewrite HR in E5. discriminate.
  - split; [reflexivity|]. split; [reflexivity|]. split; [|now left].
    intros kc' o'' cfg' ns' w1' r' te' E1 E2 E3 E4 E5.
    inversion E1; inversion E2; inversion E3; subst.
    rewrite HN in E4. discriminate.
  - split; [reflexivity|]. split; [reflexivity|]. split; [|now left].
    intros kc' o'' cfg' ns' w1' r' te' E1 E2 E3 E4 E5.
    inversion E1; inversion E2; inversion E3; subst.
    rewrite HN in E4. discriminate.
Qed.

Lemma run_teardown_does_not_mask_witness :
  cli.run scenarios.sessionA scenarios.desk [world.TimeoutCase] examples.servedWorld
  = (world.Returned None,
     nodeshell.RetryClose examples.shellA
       (snd (nodeshell.New "node-a" config.Default [world.TimeoutCase] examples.servedWorld)),
     snd (session.Run examples.shellA (session.mkRestConfig false "")
            scenarios.goodTerminal)).
Proof.
  exact (proj2
           (proj1 (proj2 (proj2 (run_teardown_does_not_mask "node-a" "" "" false
                                   scenarios.desk [world.TimeoutCase] examples.servedWorld)))
              (session.mkRestConfig false "") scenarios.sessionA config.Default
              examples.shellA
              (snd (nodeshell.New "node-a" config.Default [world.TimeoutCase]
                      examples.servedWorld))
              None
              (snd (session.Run examples.shellA (session.mkRestConfig false "")
                      scenarios.goodTerminal))
              eq_refl eq_refl eq_refl eq_refl eq_refl)).
Defined.

(** The command deletes nothing unless the session started.  Either [New],
    for the node and the settings of this run, returned a session, or the
    run has no delete call, no delay and no warning among its effects.  And
    when that [New] fails, the run returns its error in the world [New]
    left, with nothing done to the terminal: a pod that [New] created stays
    in the cluster. *)
Theorem run_deletes_only_after_start
        (o : cli.commandOptions) (m : cli.Machine)
        (sched : list world.SelectCase) (w : world.World) :
  (exists new,
      world.trace (snd (fst (cli.run o m sched w))) = (world.trace w ++ new)%list /\
      ((exists kc o' cfg ns w1,
           cli.initKubeClient o m = inl kc /\
           cli.ensureNode o m = inl o' /\
           config.Load (cli.host m) (cli.configPath o') = inl cfg /\
           nodeshell.New (cli.nodeName o') cfg sched w = (world.Returned (inl ns), w1))
       \/ (List.filter observe.isDelete new = [] /\
           List.filter observe.isSleep new = [] /\
           List.filter observe.isPrint new = []))) /\
  (forall kc o' cfg w1 err,
      cli.initKubeClient o m = inl kc ->
      cli.ensureNode o m = inl o' ->
      config.Load (cli.host m) (cli.configPath o') = inl cfg ->
      nodeshell.New (cli.nodeName o') cfg sched w = (world.Returned (inr err), w1) ->
      cli.run o m sched w = (world.Returned (Some (cli.ShellFailed err)), w1, [])).
Proof.
  split.
  2:{ intros kc o' cfg w1 err Hk Ho Hc HN. unfold cli.run. now rewrite Hk, Ho, Hc, HN. }
  unfold cli.run.
  assert (Hnil : forall P : Prop,
             exists new,
               world.trace w = (world.trace w ++ new)%list /\
               (P \/ (List.filter observe.isDelete new = [] /\
                      List.filter observe.isSleep new = [] /\
                      List.filter observe.isPrint new = []))).
  { intros P. exists []. rewrite app_nil_r. auto. }
  destruct (cli.initKubeClient o m) as [kc|] eqn:Hk; [|apply Hnil].
  destruct (cli.ensureNode o m) as [o'|] eqn:Ho; [|apply Hnil].
  destruct (config.Load _ _) as [cfg|] eqn:Hc; [|apply Hnil].
  destruct (New_no_teardown (cli.nodeName o') cfg sched w) as (new & Htr & Hnone).
  apply no_teardown_split in Hnone.
  destruct (nodeshell.New _ cfg sched w) as [[[ns|err]|] w1] eqn:HN; simpl in Htr;
    try (exists new; split; [exact Htr|right; exact Hnone]).
  destruct (cli.killPod o').
  - destruct (Close_call ns w1) as (r & _ & Hct & _).
    destruct (nodeshell.Close ns w1) as [[?|] w2]; simpl in Hct |- *;
      (eexists; split; [rewrite Hct, Htr, <- app_assoc; reflexivity|left; exists kc, o', cfg, ns, w1; auto]).
  - destruct (session.Run ns kc (cli.terminal m)) as [[r|] te]; simpl.
    + destruct (negb (cli.keepPod o')).
      * destruct (RetryClose_trace ns w1) as (extra & Hrt & _).
        eexists. split; [rewrite Hrt, Htr, <- app_assoc; reflexivity|left; exists kc, o', cfg, ns, w1; auto].
      * exists new. split; [exact Htr|left; exists kc, o', cfg, ns, w1; auto].
    + exists new. split; [exact Htr|left; exists kc, o', cfg, ns, w1; auto].
Qed.

Lemma run_deletes_only_after_start_witness :
  cli.run scenarios.sessionB scenarios.desk [world.TimeoutCase] examples.staleWorld
  = (world.Returned (Some (cli.ShellFailed (nodeshell.NodeNotFound "node-b"))),
     snd (nodeshell.New "node-b" config.Default [world.TimeoutCase] examples.staleWorld),
     []).
Proof.
  exact (proj2 (run_deletes_only_after_start scenarios.sessionB scenarios.desk
                  [world.TimeoutCase] examples.staleWorld)
           (session.mkRestConfig false "") scenarios.sessionB config.Default
           (snd (nodeshell.New "node-b" config.Default [world.TimeoutCase]
                   examples.staleWorld))
           (nodeshell.NodeNotFound "node-b") eq_refl eq_refl eq_refl eq_refl).
Defined.

(** A node named on the command line is used as it is: the list of nodes
    and the prompt have no part in the run. *)
Theorem run_node_given
        (o : cli.commandOptions) (m : cli.Machine)
        (listed : list string + k8s.StatusError) (prompt : list string -> string + string)
        (sched : list world.SelectCase) (w : world.World) :
  cli.nodeName o <> "" ->
  cli.run o
    (cli.mkMachine (cli.host m) (cli.ClientConfig m) (cli.NewForConfig m)
       listed prompt (cli.terminal m)) sched w
  = cli.run o m sched w.
Proof.
  intros Hne. unfold cli.run, cli.initKubeClient, cli.ensureNode. simpl.
  destruct (String.eqb (cli.nodeName o) "") eqn:E; [now apply String.eqb_eq in E|].
  reflexivity.
Qed.

Lemma run_node_given_witness :
  cli.run scenarios.sessionA
    (cli.mkMachine (cli.host scenarios.desk) (cli.ClientConfig scenarios.desk)
       (cli.NewForConfig scenarios.desk) (inl []) (fun _ => inr "^C")
       (cli.terminal scenarios.desk)) [world.TimeoutCase] examples.servedWorld
  = cli.run scenarios.sessionA scenarios.desk [world.TimeoutCase] examples.servedWorld.
Proof.
  apply run_node_given. discriminate.
Defined.

(** Without a terminal, and without [--kill], the command never returns
    success, makes no executor and opens no stream: the terminal is asked
    for its size at most. *)
Theorem run_without_terminal
        (o : cli.commandOptions) (m : cli.Machine)
        (sched : list world.SelectCase) (w : world.World) :
  session.IsTerminalOut (cli.terminal m) = false ->
  cli.killPod o = false ->
  fst (fst (cli.run o m sched w)) <> world.Returned None /\
  (snd (cli.run o m sched w) = [] \/ snd (cli.run o m sched w) = [session.EMonitorSize]).
Proof.
  intros Hterm Hkill. unfold cli.run.
  destruct (cli.initKubeClient o m) as [kc|]; [|split; [discriminate|now left]].
  destruct (cli.ensureNode o m) as [o'|] eqn:En; [|split; [discriminate|now left]].
  destruct (ensureNode_flags o o' m En) as (_ & Hk2 & _).
  destruct (config.Load _ _) as [cfg|]; [|split; [discriminate|now left]].
  destruct (nodeshell.New _ cfg sched w) as [[[ns|err]|] w1];
    try (split; [discriminate|now left]).
  rewrite Hk2, Hkill. unfold session.Run. rewrite Hterm. simpl.
  split; [discriminate|now right].
Qed.

Lemma run_without_terminal_witness :
  fst (fst (cli.run scenarios.sessionA scenarios.pipe [world.TimeoutCase]
              examples.servedWorld))
  <> world.Returned None.
Proof.
  exact (proj1 (run_without_terminal scenarios.sessionA scenarios.pipe [world.TimeoutCase]
                  examples.servedWorld eq_refl eq_refl)).
Defined.

Section Reuse.
Import k8s world nodeshell observe marks.
Local Open Scope list_scope.

Lemma start_reuse_calm (n : NodeShell) (sched : list SelectCase) (w : World) (pod : Pod) :
  Forall calm (script w) ->
  node n ∈ nodes (cluster w) ->
  config.PodNamespace (config n) ∈ namespaces (cluster w) ->
  pods (cluster w) !! (config.PodNamespace (config n), podName n) = Some pod ->
  Phase (Status pod) = PodRunning ->
  exists w',
    start n sched w = (Returned None, w') /\
    cluster w' = cluster w /\
    Forall calm (script w') /\
    trace w'
    = trace w
        ++ [ECall (GetNode (node n)) ReplyOk;
            ECall (GetNamespace (config.PodNamespace (config n))) ReplyOk;
            ECall (GetPod (config.PodNamespace (config n)) (podName n)) (ReplyPod pod)].
Proof.
  intros Hcalm Hnode Hns Hpod Hrun. unfold start.
  rewrite (getNode_calm_found _ w Hcalm Hnode).
  set (w1 := mkWorld _ _ _).
  assert (Hcalm1 : Forall calm (script w1)) by now apply calm_tl.
  rewrite (getNamespace_calm_found _ w1 Hcalm1 Hns).
  set (w2 := mkWorld _ _ _).
  assert (Hcalm2 : Forall calm (script w2)) by now apply calm_tl.
  rewrite (getPod_calm _ _ w2 pod Hcalm2 Hpod), Hrun. simpl.
  eexists. split; [reflexivity|]. simpl. split; [reflexivity|].
  split; [now apply calm_tl|]. now rewrite <- !app_assoc.
Qed.

Lemma RetryClose_calm (n : NodeShell) (w : World) (pod : Pod) :
  Forall calm (script w) ->
  pods (cluster w) !! (config.PodNamespace (config n), podName n) = Some pod ->
  RetryClose n w
  = mkWorld (mkCluster (nodes (cluster w)) (namespaces (cluster w))
               (delete (config.PodNamespace (config n), podName n) (pods (cluster w))))
      (tl (script w))
      (trace w ++ [ECall (DeletePod (config.PodNamespace (config n)) (podName n)) ReplyOk]).
Proof.
  intros Hcalm Hpod. unfold RetryClose, closeMaxRetry.
  rewrite retryLoop_S. unfold Close. now rewrite (deletePod_calm _ _ w Hcalm), Hpod.
Qed.

End Reuse.

(** A session that found its pod running, and so did not create it, still
    deletes it when it ends: without [--kill] and [--keep], when the session
    on the terminal returns and nothing else acts on the cluster, the
    command makes no create call and one delete call, and the pod is gone
    from the cluster. *)
Theorem run_removes_reused_pod
        (o o' : cli.commandOptions) (m : cli.Machine) (kc : session.RestConfig)
        (cfg : config.Config) (sched : list world.SelectCase) (w : world.World)
        (pod : k8s.Pod) (r : option session.RunError) (effects : list session.TermEffect) :
  cli.initKubeClient o m = inl kc ->
  cli.ensureNode o m = inl o' ->
  config.Load (cli.host m) (cli.configPath o') = inl cfg ->
  cli.killPod o = false ->
  cli.keepPod o = false ->
  let n := nodeshell.newShell (cli.nodeName o') cfg in
  Forall observe.calm (world.script w) ->
  nodeshell.node n ∈ k8s.nodes (world.cluster w) ->
  config.PodNamespace cfg ∈ k8s.namespaces (world.cluster w) ->
  k8s.pods (world.cluster w) !! (config.PodNamespace cfg, nodeshell.podName n) = Some pod ->
  k8s.Phase (k8s.Status pod) = k8s.PodRunning ->
  session.Run n kc (cli.terminal m) = (world.Returned r, effects) ->
  let w' := snd (fst (cli.run o m sched w)) in
  fst (fst (cli.run o m sched w)) = world.Returned (option_map cli.SessionFailed r) /\
  k8s.pods (world.cluster w') !! (config.PodNamespace cfg, nodeshell.podName n) = None /\
  world.trace w'
  = (world.trace w
       ++ [world.ECall (k8s.GetNode (nodeshell.node n)) k8s.ReplyOk;
           world.ECall (k8s.GetNamespace (config.PodNamespace cfg)) k8s.ReplyOk;
           world.ECall (k8s.GetPod (config.PodNamespace cfg) (nodeshell.podName n))
             (k8s.ReplyPod pod);
           world.ECall (k8s.DeletePod (config.PodNamespace cfg) (nodeshell.podName n))
             k8s.ReplyOk])%list.
Proof.
  intros Hkc Hen Hload Hkill Hkeep n Hcalm Hnode Hns Hpod Hrun HRun.
  destruct (ensureNode_flags o o' m Hen) as (Hk1 & Hk2 & _).
  destruct (start_reuse_calm n sched w pod Hcalm Hnode Hns Hpod Hrun)
    as (w1 & Hs & Hcl & Hsc & Htr).
  unfold cli.run. rewrite Hkc, Hen, Hload. unfold nodeshell.New. fold n.
  rewrite Hs, Hk2, Hkill, HRun, Hk1, Hkeep. simpl.
  rewrite (RetryClose_calm n w1 pod Hsc) by (rewrite Hcl; exact Hpod). simpl.
  split; [reflexivity|]. split; [apply lookup_delete_eq|].
  rewrite Htr, <- !app_assoc. reflexivity.
Qed.

Lemma run_removes_reused_pod_witness :
  k8s.pods
    (world.cluster
       (snd (fst (cli.run scenarios.sessionA scenarios.desk [world.TimeoutCase]
                    examples.servedWorld))))
    !! ("kube-system", "node-shell-node-a") = None.
Proof.
  exact (proj1 (proj2
    (run_removes_reused_pod scenarios.sessionA scenarios.sessionA scenarios.desk
       (session.mkRestConfig false "") config.Default [world.TimeoutCase]
       examples.servedWorld examples.runningA None
       (snd (session.Run examples.shellA (session.mkRestConfig false "")
               scenarios.goodTerminal))
       eq_refl eq_refl eq_refl eq_refl eq_refl
       ltac:(constructor) ltac:(vm_compute; reflexivity) ltac:(vm_compute; reflexivity)
       ltac:(vm_compute; reflexivity) eq_refl eq_refl))).
Defined.
